(** * BankReceiptAPI: the receipt resolver of [getresult.js]

    A shallow embedding of the Express handler [GET /getresult/:transactionId]
    and of the two extractors it dispatches to, [parseFT] (CBE, a PDF
    receipt scanned with regular expressions) and [parseTelebirr] (an HTML
    receipt queried with cheerio).

    JavaScript strings are sequences of UTF-16 code units; they are modelled
    as [list N].  The libraries the script calls (axios, pdf-parse, the HTML
    parser behind [cheerio.load], the clock) and the text of the engine's
    [TypeError] are parameters of the model; the regular expressions, the
    string methods and the cheerio traversals the script uses are defined
    here. *)

From Stdlib Require Import Ascii String.
From Stdlib Require Import List NArith ZArith Bool Lia.
Import ListNotations.

Set Implicit Arguments.

(** ** JavaScript strings *)

Module JS.

Definition jsstring := list N.

(** UTF-8 bytes of a literal of this file to UTF-16 code units, so that the
    literals of the script can be written as they are in [getresult.js]. *)
Fixpoint utf16_of_utf8 (bs : list N) : jsstring :=
  match bs with
  | [] => []
  | b0 :: r =>
      if (b0 <? 128)%N then b0 :: utf16_of_utf8 r
      else if (b0 <? 224)%N then
        match r with
        | b1 :: r1 => ((b0 mod 32) * 64 + b1 mod 64)%N :: utf16_of_utf8 r1
        | [] => [65533%N]
        end
      else if (b0 <? 240)%N then
        match r with
        | b1 :: b2 :: r2 =>
            ((b0 mod 16) * 4096 + (b1 mod 64) * 64 + b2 mod 64)%N :: utf16_of_utf8 r2
        | _ => [65533%N]
        end
      else
        match r with
        | b1 :: b2 :: b3 :: r3 =>
            let cp := ((b0 mod 8) * 262144 + (b1 mod 64) * 4096
                       + (b2 mod 64) * 64 + b3 mod 64)%N in
            let v := (cp - 65536)%N in
            (55296 + v / 1024)%N :: (56320 + v mod 1024)%N :: utf16_of_utf8 r3
        | _ => [65533%N]
        end
  end.

Definition js (s : string) : jsstring :=
  utf16_of_utf8 (map N_of_ascii (list_ascii_of_string s)).

(** [String.prototype.startsWith(p)] (position 0): code units are compared
    as they are, so the test is case-sensitive. *)
Fixpoint startsWith (s p : jsstring) {struct p} : bool :=
  match p with
  | [] => true
  | c :: p' =>
      match s with
      | x :: s' => (x =? c)%N && startsWith s' p'
      | [] => false
      end
  end.

(** [String.prototype.includes(p)]. *)
Fixpoint includes (s p : jsstring) : bool :=
  startsWith s p ||
  match s with
  | [] => false
  | _ :: s' => includes s' p
  end.

(** ECMAScript [WhiteSpace] and [LineTerminator] code units: what [\s]
    matches and what [trim] strips. *)
Definition is_line_terminator (c : N) : bool :=
  ((c =? 10) || (c =? 13) || (c =? 8232) || (c =? 8233))%N.

Definition is_space (c : N) : bool :=
  ((c =? 9) || (c =? 11) || (c =? 12) || (c =? 32) || (c =? 160)
   || (c =? 5760) || ((8192 <=? c) && (c <=? 8202)) || (c =? 8239)
   || (c =? 8287) || (c =? 12288) || (c =? 65279))%N
  || is_line_terminator c.

(** [\d] *)
Definition is_digit (c : N) : bool := ((48 <=? c) && (c <=? 57))%N.

(** [.] without the [s] flag: any code unit but a line terminator. *)
Definition is_dot (c : N) : bool := negb (is_line_terminator c).

Fixpoint trimStart (s : jsstring) : jsstring :=
  match s with
  | [] => []
  | c :: s' => if is_space c then trimStart s' else s
  end.

Definition trimEnd (s : jsstring) : jsstring := rev (trimStart (rev s)).

(** [String.prototype.trim()]. *)
Definition trim (s : jsstring) : jsstring := trimEnd (trimStart s).

(** JavaScript truthiness of a string: only the empty string is falsy. *)
Definition truthy (s : jsstring) : bool :=
  match s with [] => false | _ :: _ => true end.

End JS.
Import JS.

(** ** The transaction router (handler, lines 134-140) *)

Inductive SourceNetwork := CBE | Telebirr.

Definition cbe_link (transactionId : jsstring) : jsstring :=
  js "https://apps.cbe.com.et:100/?id=" ++ transactionId ++ js "W09338067".

Definition telebirr_link (transactionId : jsstring) : jsstring :=
  js "https://transactioninfo.ethiotelecom.et/receipt/" ++ transactionId.

(** The branch taken by [if (transactionId.startsWith('FT'))] and the
    [link] it builds. *)
Definition route (transactionId : jsstring) : SourceNetwork * jsstring :=
  if startsWith transactionId (js "FT")
  then (CBE, cbe_link transactionId)
  else (Telebirr, telebirr_link transactionId).

(** ** Regular expressions

    The fragment of ECMAScript regular expressions the script uses: a
    pattern is a sequence of items over one-code-unit atoms, matched by
    backtracking in the order of the ECMAScript matcher (a greedy
    quantifier tries the longest repetition first, a lazy one the shortest
    first). *)

Module Regex.

Inductive atom :=
| Chr (c : N)              (* a pattern character *)
| Cls (p : N -> bool).     (* a class: [\s], [\d], [.] *)

Inductive item :=
| One (a : atom)           (* a *)
| Opt (a : atom)           (* a?  (greedy) *)
| Star (a : atom)          (* a*  (greedy) *)
| LazyGroup (a : atom).    (* (a*?), the capturing group 1 *)

(** [Canonicalize] of a regular expression with flag [i] and without flag
    [u].  Only the ASCII letters are mapped: a code unit of 128 or more is
    never canonicalized to one below 128, so this agrees with ECMAScript
    whenever one side of the comparison is an ASCII pattern character, which
    is the case for every pattern of the script. *)
Definition canonicalize (c : N) : N :=
  if ((97 <=? c) && (c <=? 122))%N then (c - 32)%N else c.

Definition atom_match (ignoreCase : bool) (a : atom) (x : N) : bool :=
  match a with
  | Chr c => if ignoreCase then (canonicalize x =? canonicalize c)%N else (x =? c)%N
  | Cls p => p x
  end.

(** A successful match: what group 1 captured, and the input left after the
    match. *)
Definition result := (jsstring * jsstring)%type.

Section Matcher.
Variable ignoreCase : bool.

Definition one (a : atom) (k : jsstring -> option result) (s : jsstring)
  : option result :=
  match s with
  | x :: s' => if atom_match ignoreCase a x then k s' else None
  | [] => None
  end.

Definition opt (a : atom) (k : jsstring -> option result) (s : jsstring)
  : option result :=
  match one a k s with
  | Some r => Some r
  | None => k s
  end.

Definition star (a : atom) (k : jsstring -> option result)
  : jsstring -> option result :=
  fix go (s : jsstring) : option result :=
    match s with
    | x :: s' =>
        if atom_match ignoreCase a x
        then match go s' with
             | Some r => Some r
             | None => k s
             end
        else k s
    | [] => k s
    end.

Definition lazy_group (a : atom) (k : jsstring -> option result)
  : jsstring -> option result :=
  fix go (s : jsstring) : option result :=
    match k s with
    | Some (_, rest) => Some ([], rest)
    | None =>
        match s with
        | x :: s' =>
            if atom_match ignoreCase a x
            then match go s' with
                 | Some (g, rest) => Some (x :: g, rest)
                 | None => None
                 end
            else None
        | [] => None
        end
    end.

(** The pattern matched at the head of the input. *)
Fixpoint run (p : list item) : jsstring -> option result :=
  match p with
  | [] => fun s => Some ([], s)
  | One a :: p' => one a (run p')
  | Opt a :: p' => opt a (run p')
  | Star a :: p' => star a (run p')
  | LazyGroup a :: p' => lazy_group a (run p')
  end.

(** [text.match(pattern)] for a pattern without flag [g]: the match at
    the leftmost position that has one; [match[1]] is returned. *)
Fixpoint search (p : list item) (s : jsstring) : option jsstring :=
  match run p s with
  | Some (g, _) => Some g
  | None =>
      match s with
      | [] => None
      | _ :: s' => search p s'
      end
  end.

(** [text.replace(pattern, by)] for a pattern with flag [g], scanning the
    positions from left to right; [skip] counts the code units of the
    last match that are still to be passed over. *)
Fixpoint replace_from (p : list item) (by_ : jsstring) (skip : nat)
         (s : jsstring) : jsstring :=
  match s with
  | [] =>
      match skip, run p [] with
      | O, Some _ => by_
      | _, _ => []
      end
  | x :: s' =>
      match skip with
      | S n => replace_from p by_ n s'
      | O =>
          match run p s with
          | Some (_, rest) =>
              match (length s - length rest)%nat with
              | O => by_ ++ x :: replace_from p by_ 0 s'
              | S n => by_ ++ replace_from p by_ n s'
              end
          | None => x :: replace_from p by_ 0 s'
          end
      end
  end.

Definition replace (p : list item) (by_ : jsstring) (s : jsstring) : jsstring :=
  replace_from p by_ 0 s.
End Matcher.

(** The pattern characters of a literal. *)
Definition lit (s : string) : list atom := map Chr (js s).

Definition ws : atom := Cls is_space.
Definition digit : atom := Cls is_digit.
Definition dot : atom := Cls is_dot.

End Regex.
Import Regex.

(** ** Values, records and failures *)

(** The field values of a record: [null] or a string. *)
Inductive value :=
| Null
| Str (s : jsstring).

(** [v || d] for a string literal [d]: [null] and the empty string are
    falsy. *)
Definition or_else (v : value) (d : jsstring) : value :=
  match v with
  | Str s => if truthy s then Str s else Str d
  | Null => Str d
  end.

(** The object the extractors return; [data] keeps the properties in the
    order of the object literal. *)
Record CanonicalPaymentRecord := {
  source : jsstring;
  transactionId : jsstring;
  link : jsstring;
  data : list (string * value)
}.

Definition keys (o : list (string * value)) : list string := map fst o.

Fixpoint get (o : list (string * value)) (k : string) : option value :=
  match o with
  | [] => None
  | (k', v) :: o' => if String.eqb k' k then Some v else get o' k
  end.

(** The [data] of an axios response that was requested without a
    [responseType]: the body as a string, unless the body is JSON text, in
    which case it is the value that [JSON.parse] returns for it.  A number
    is kept as its literal. *)
#[warnings="-register-all"]
Inductive jsvalue :=
| VNull
| VBoolean (b : bool)
| VNumber (literal : jsstring)
| VString (s : jsstring)
| VArray (items : list jsvalue)
| VObject (members : list (jsstring * jsvalue)).

(** [v === s] for a string [s]. *)
Definition is_the_string (s : jsstring) (v : jsvalue) : bool :=
  match v with
  | VString t => if list_eq_dec N.eq_dec t s then true else false
  | _ => false
  end.

(** The values that have a method [includes]: strings and arrays. *)
Definition has_includes (v : jsvalue) : bool :=
  match v with
  | VString _ | VArray _ => true
  | _ => false
  end.

(** An awaited call either returns or throws; of a thrown error the handler
    reads [error.message] only. *)
Inductive outcome (A : Type) :=
| Ok (a : A)
| Throw (message : jsstring).
Arguments Ok {A} a.
Arguments Throw {A} message.

Definition bind {A B : Type} (m : outcome A) (f : A -> outcome B) : outcome B :=
  match m with
  | Ok a => f a
  | Throw e => Throw e
  end.

Notation "x <- m ;; k" := (bind m (fun x => k))
  (at level 61, m at next level, right associativity).

(** ** The CBE extractor, [parseFT] *)

Module CBEReceipt.

(** Line 50:
    [pdfData.text.replace(/\r?\n/g, ' ').replace(/\s\s+/g, ' ')];
    [\s+] is written [\s\s*]. *)
Definition line_break : list item := [Opt (Chr 13); One (Chr 10)].
Definition whitespace_run : list item := [One ws; One ws; Star ws].

Definition flatten (pdfText : jsstring) : jsstring :=
  replace false whitespace_run (js " ") (replace false line_break (js " ") pdfText).

(** Lines 52-56: [new RegExp(`${label}\\s*(.*?)\\s*${after}`, 'i')], the
    first match, its group 1 trimmed, or [null].  Every [label] and [after]
    of the script is a sequence of one-code-unit atoms. *)
Definition pattern (label after : list atom) : list item :=
  map One label ++ [Star ws; LazyGroup dot; Star ws] ++ map One after.

Definition extract (text : jsstring) (label after : list atom) : value :=
  match search true (pattern label after) text with
  | Some g => Str (trim g)
  | None => Null
  end.

(** [Account 1\*\*\*\*\d{4}] *)
Definition masked_account : list atom :=
  lit "Account 1" ++ lit "****" ++ [digit; digit; digit; digit].

(** [Reference No\. \(VAT Invoice No\)] *)
Definition reference_label : list atom := lit "Reference No. (VAT Invoice No)".

Definition total_label : list atom :=
  lit "Total amount debited from customers account".

(** Lines 58-81. *)
Definition cbe_data (text : jsstring) : list (string * value) :=
  let payer := extract text (lit "Payer") (lit "Account") in
  let payerAccount := extract text (lit "Account") (lit "Receiver") in
  let receiver := extract text (lit "Receiver") (lit "Account") in
  let receiverAccount :=
    or_else (extract text masked_account (lit "Payment Date & Time"))
            (js "1000009338067") in
  let dateTime := extract text (lit "Payment Date & Time") (lit "Reference No") in
  let reference := extract text reference_label (lit "Reason") in
  let reason :=
    extract text (lit "Reason / Type of service") (lit "Transferred Amount") in
  let totalAmount := extract text total_label (lit "Amount in Word") in
  [ ("payer", payer);
    ("payerAccount", or_else payerAccount (js "Unknown"));
    ("receiver", receiver);
    ("receiverAccount", receiverAccount);
    ("paymentDateTime", dateTime);
    ("referenceNo", reference);
    ("reason", reason);
    ("totalAmount",
      match totalAmount with
      | Str t => if truthy t then Str (t ++ js " ETB")%list else Str (js "Unknown")
      | Null => Str (js "Unknown")
      end) ]%string.

Definition cbe_record (link transactionId text : jsstring) : CanonicalPaymentRecord :=
  {| source := js "CBE";
     transactionId := transactionId;
     link := link;
     data := cbe_data text |}.

Section Fetch.
(** [axios.get(link, {responseType: 'arraybuffer', httpsAgent})] and
    [pdfParse(buffer)], the latter reduced to the [text] of its result. *)
Variable Buffer : Type.
Variable axios_get_arraybuffer : jsstring -> outcome Buffer.
Variable pdfParse : Buffer -> outcome jsstring.

Definition parseFT (link transactionId : jsstring) : outcome CanonicalPaymentRecord :=
  pdfResponse <- axios_get_arraybuffer link ;;
  pdfText <- pdfParse pdfResponse ;;
  Ok (cbe_record link transactionId (flatten pdfText)).
End Fetch.

End CBEReceipt.
Import CBEReceipt.

(** ** The document tree and the cheerio traversals of [parseTelebirr]

    A parsed page is a forest of elements and text nodes.  Of an element
    the tag name and the classes are kept, which is all the selectors of the
    script look at; a comment or a doctype, which is no element and has no
    text, stands in the forest as an empty text node.  A selection is the
    list of the selected elements, each given by its path of child indices
    from the root. *)

Module Cheerio.

#[warnings="-register-all"]
Inductive node :=
| Text (content : jsstring)
| Element (name : string) (classes : list string) (children : list node).

Definition document := list node.
Definition path := list nat.
Definition selection := list path.

Fixpoint textContent (n : node) : jsstring :=
  match n with
  | Text d => d
  | Element _ _ cs => flat_map textContent cs
  end.

(** The text that the selector [:contains] looks at (the [getText] of
    domutils): as [textContent], but an element [br] counts as a line
    feed. *)
Fixpoint getText (n : node) : jsstring :=
  match n with
  | Text d => d
  | Element name _ cs =>
      if String.eqb name "br" then [10%N] else flat_map getText cs
  end.

Definition children_of (n : node) : list node :=
  match n with
  | Text _ => []
  | Element _ _ cs => cs
  end.

(** The node at a path. *)
Fixpoint node_at (ns : list node) (p : path) : option node :=
  match p with
  | [] => None
  | i :: p' =>
      match nth_error ns i with
      | Some n =>
          match p' with
          | [] => Some n
          | _ :: _ => node_at (children_of n) p'
          end
      | None => None
      end
  end.

Section Numbered.
Variable below : node -> list path.
Fixpoint numbered (i : nat) (ns : list node) : list path :=
  match ns with
  | [] => []
  | n :: ns' => map (cons i) (below n) ++ numbered (S i) ns'
  end.
End Numbered.

(** The elements of a subtree in document order, its root first, as paths
    from that root. *)
Fixpoint elements_below (n : node) : list path :=
  match n with
  | Text _ => []
  | Element _ _ cs => [] :: numbered elements_below 0 cs
  end.

Definition elements (d : document) : selection := numbered elements_below 0 d.

Definition is_td (n : node) : bool :=
  match n with
  | Element name _ _ => String.eqb name "td"
  | Text _ => false
  end.

Definition has_class (c : string) (n : node) : bool :=
  match n with
  | Element _ classes _ => existsb (String.eqb c) classes
  | Text _ => false
  end.

Definition select (d : document) (test : node -> bool) : selection :=
  filter (fun p => match node_at d p with Some n => test n | None => false end)
         (elements d).

(** [$('td:contains("label")')]: the [td] elements whose text, descendants
    included, contains the label. *)
Definition holds_label (label : jsstring) (n : node) : bool :=
  is_td n && includes (getText n) label.

Definition td_contains (d : document) (label : jsstring) : selection :=
  select d (holds_label label).

(** [$('td.receipttableTd2')] *)
Definition holds_class (c : string) (n : node) : bool :=
  is_td n && has_class c n.

Definition td_with_class (d : document) (c : string) : selection :=
  select d (holds_class c).

Definition is_element (n : node) : bool :=
  match n with Element _ _ _ => true | Text _ => false end.

(** The index of the first element among [ns], counted from [i]. *)
Fixpoint first_element (i : nat) (ns : list node) : option nat :=
  match ns with
  | [] => None
  | n :: ns' => if is_element n then Some i else first_element (S i) ns'
  end.

Definition siblings (d : document) (parent : path) : list node :=
  match parent with
  | [] => d
  | _ :: _ => match node_at d parent with Some n => children_of n | None => [] end
  end.

Definition next_sibling (d : document) (p : path) : selection :=
  match rev p with
  | [] => []
  | i :: up =>
      let parent := rev up in
      match first_element (S i) (skipn (S i) (siblings d parent)) with
      | Some j => [parent ++ [j]]
      | None => []
      end
  end.

(** [.next()]: the next element sibling of each selected element. *)
Definition next (d : document) (sel : selection) : selection :=
  flat_map (next_sibling d) sel.

(** [.parent()]: the parent element of each selected element; the root of
    the document is not an element.  The script calls it on selections of at
    most one element. *)
Definition parent (sel : selection) : selection :=
  flat_map (fun p => match removelast p with [] => [] | up => [up] end) sel.

(** [.find('td')]: the [td] descendants of each selected element.  The
    script calls it on selections of at most one element. *)
Definition find_td (d : document) (sel : selection) : selection :=
  flat_map (fun p =>
              match node_at d p with
              | Some n =>
                  filter (fun q => match node_at d q with
                                   | Some m => is_td m
                                   | None => false
                                   end)
                         (map (app p) (tl (elements_below n)))
              | None => []
              end) sel.

(** [.first()] and [.eq(i)] *)
Definition first (sel : selection) : selection := firstn 1 sel.

Definition eq_ (i : nat) (sel : selection) : selection :=
  match nth_error sel i with
  | Some p => [p]
  | None => []
  end.

(** [.text()]: the texts of the selected elements, concatenated. *)
Definition text (d : document) (sel : selection) : jsstring :=
  flat_map (fun p => match node_at d p with
                     | Some n => textContent n
                     | None => []
                     end) sel.

End Cheerio.

(** ** The Telebirr extractor, [parseTelebirr] *)

Module TelebirrReceipt.
Import Cheerio.

Definition sentinel : jsstring := js "This request is not correct".

Definition payer_name_label := js "የከፋይ ስም/Payer Name".
Definition payer_number_label := js "የከፋይ ቴሌብር ቁ./Payer telebirr no.".
Definition credited_party_label := js "የገንዘብ ተቀባይ ስም/Credited Party name".
Definition payment_reason_label := js "የክፍያ ምክንያት/Payment Reason".
Definition bank_account_label := js "የባንክ አካውንት ቁጥር/Bank account number".
Definition total_paid_label := js "ጠቅላላ የተከፈለ/Total Paid Amount".

(** [$('td:contains("label")').next().text().trim()] *)
Definition cell_after (d : document) (label : jsstring) : jsstring :=
  trim (text d (next d (td_contains d label))).

(** Lines 101-104. *)
Definition receipt_number (d : document) : jsstring :=
  let receiptHeader := first (td_with_class d "receipttableTd2") in
  trim (text d (first (find_td d (next d (parent receiptHeader))))).

Definition payment_date (d : document) : jsstring :=
  let receiptHeader := first (td_with_class d "receipttableTd2") in
  let paymentDateHeader := next d receiptHeader in
  trim (text d (eq_ 1 (find_td d (next d (parent paymentDateHeader))))).

(** Lines 95-121. *)
Definition telebirr_data (d : document) : list (string * value) :=
  let payerName := cell_after d payer_name_label in
  let payerTelebirrNumber := cell_after d payer_number_label in
  let creditedPartyName := cell_after d credited_party_label in
  let paymentType := cell_after d payment_reason_label in
  let accountNumber := cell_after d bank_account_label in
  let receiptNumber := receipt_number d in
  let paymentDate := payment_date d in
  let totalAmountPaid := cell_after d total_paid_label in
  [ ("paymentType", Str paymentType);
    ("payerName", Str payerName);
    ("payerTelebirrNumber", Str payerTelebirrNumber);
    ("creditedPartyName", Str creditedPartyName);
    ("bankAccountNumber", or_else (Str accountNumber) (js "Not available"));
    ("receiptNumber", Str receiptNumber);
    ("paymentDate", Str paymentDate);
    ("totalAmountPaid", Str totalAmountPaid) ]%string.

Definition telebirr_record (link transactionId : jsstring) (d : document)
  : CanonicalPaymentRecord :=
  {| source := js "Telebirr";
     transactionId := transactionId;
     link := link;
     data := telebirr_data d |}.

Section Fetch.
(** [axios.get(link)], reduced to the [data] of the response; the message
    of the [TypeError] that the engine throws when a method is called that
    the value does not have; and [cheerio.load(html)], the tree that the
    queries of lines 95-105 run on.  (Given an array, [cheerio.load] takes
    its elements for the nodes of the page; nothing is done between the
    load and the queries, so an exception that a query throws on such nodes
    counts as one of the load.) *)
Variable axios_get : jsstring -> outcome jsvalue.
Variable type_error : jsvalue -> jsstring.
Variable cheerio_load : jsvalue -> outcome document.

(** Line 89, [html.includes("This request is not correct")]: on a string
    it is [String.prototype.includes]; on an array it is
    [Array.prototype.includes], which looks for an element that is the
    phrase; [null], a boolean, a number and an object have no method
    [includes], and the call throws a [TypeError]. *)
Definition includes_sentinel (html : jsvalue) : outcome bool :=
  match html with
  | VString s => Ok (includes s sentinel)
  | VArray items => Ok (existsb (is_the_string sentinel) items)
  | _ => Throw (type_error html)
  end.

Definition parseTelebirr (link transactionId : jsstring)
  : outcome CanonicalPaymentRecord :=
  html <- axios_get link ;;
  found <- includes_sentinel html ;;
  if found : bool
  then Throw (js "Invalid Telebirr transaction ID")
  else
    d <- cheerio_load html ;;
    Ok (telebirr_record link transactionId d).
End Fetch.

End TelebirrReceipt.
Import TelebirrReceipt.

(** ** The route handler and the audit log *)

Module Server.

(** What the handler reads of a request. *)
Record request := {
  param_transactionId : jsstring;
  header_x_forwarded_for : option jsstring;
  socket_remoteAddress : option jsstring;
  header_user_agent : option jsstring
}.

(** [h || d]: an absent or empty header is falsy. *)
Definition or_default (h : option jsstring) (d : jsstring) : jsstring :=
  match h with
  | Some s => if truthy s then s else d
  | None => d
  end.

(** A row of the table [logs]; [response] is the record that
    [JSON.stringify] is applied to, [timestamp] the milliseconds that
    [toISOString] prints. *)
Record LogEntry := {
  log_transactionId : jsstring;
  log_link : jsstring;
  log_response : CanonicalPaymentRecord;
  log_ip : jsstring;
  log_userAgent : jsstring;
  log_timestamp : Z
}.

(** What the handler sends: [res.json(result)], or
    [res.status(500).json({error, detail, transactionId})]. *)
Inductive response :=
| Result (result : CanonicalPaymentRecord)
| Failure (status : nat) (body : list (string * jsstring)).

Section Handler.
Variable Buffer : Type.
Variable axios_get_arraybuffer : jsstring -> outcome Buffer.
Variable pdfParse : Buffer -> outcome jsstring.
Variable axios_get : jsstring -> outcome jsvalue.
Variable type_error : jsvalue -> jsstring.
Variable cheerio_load : jsvalue -> outcome Cheerio.document.
(** [Date.now()] *)
Variable now : Z.

(** Lines 36-41. *)
Definition logToDatabase (transactionId link : jsstring)
           (responseData : CanonicalPaymentRecord) (ip userAgent : jsstring)
           (logs : list LogEntry) : list LogEntry :=
  let timestamp := (now + 3 * 60 * 60 * 1000)%Z in
  logs ++ [ {| log_transactionId := transactionId;
               log_link := link;
               log_response := responseData;
               log_ip := ip;
               log_userAgent := userAgent;
               log_timestamp := timestamp |} ].

(** Lines 131-140: the body of the [try] up to the two awaited calls. *)
Definition resolve (transactionId : jsstring)
  : outcome (jsstring * CanonicalPaymentRecord) :=
  if startsWith transactionId (js "FT")
  then
    let link := cbe_link transactionId in
    result <- parseFT axios_get_arraybuffer pdfParse link transactionId ;;
    Ok (link, result)
  else
    let link := telebirr_link transactionId in
    result <- parseTelebirr axios_get type_error cheerio_load link transactionId ;;
    Ok (link, result).

(** Lines 125-153: the response sent and the table after the request
    ([console.error] writes to the console only and is left out). *)
Definition handler (req : request) (logs : list LogEntry)
  : response * list LogEntry :=
  let transactionId := param_transactionId req in
  let ip :=
    or_default (header_x_forwarded_for req)
               (or_default (socket_remoteAddress req) (js "Unknown")) in
  let userAgent := or_default (header_user_agent req) (js "Unknown") in
  match resolve transactionId with
  | Ok (link, result) =>
      (Result result, logToDatabase transactionId link result ip userAgent logs)
  | Throw message =>
      (Failure 500 [ ("error", js "Failed to process transaction");
                     ("detail", message);
                     ("transactionId", transactionId) ]%string,
       logs)
  end.
End Handler.

End Server.
Import Server.


(** ** First-occurrence anchor pairs

    The reading of a field that the extractor is meant to compute, stated
    without the matcher: the text between the first occurrence of the label
    and the first occurrence of the anchor after it, letters compared
    without regard to case. *)

Module AnchorPair.

Fixpoint label_at (l : list atom) (s : jsstring) : bool :=
  match l, s with
  | [], _ => true
  | a :: l', x :: s' => atom_match true a x && label_at l' s'
  | _ :: _, [] => false
  end.

(** The position of the first occurrence. *)
Fixpoint index_of (l : list atom) (s : jsstring) : option nat :=
  if label_at l s then Some O
  else match s with
       | [] => None
       | _ :: s' => option_map S (index_of l s')
       end.

Definition occurs (l : list atom) (s : jsstring) : bool :=
  match index_of l s with Some _ => true | None => false end.

Definition between (text : jsstring) (label after : list atom) : option jsstring :=
  match index_of label text with
  | Some n =>
      let rest := skipn (n + length label) text in
      match index_of after rest with
      | Some m => Some (firstn m rest)
      | None => None
      end
  | None => None
  end.

Definition blank (s : jsstring) : bool := forallb is_space s.

(** The pattern starts with a character that is not whitespace. *)
Definition starts_clean (l : list atom) : bool :=
  match l with
  | Chr c :: _ => negb (is_space c)
  | _ => false
  end.

(** A value has something to show and stays on one line. *)
Definition well_formed (v : jsstring) : bool :=
  negb (blank v) && forallb is_dot (trim v).

(** What a field with a fallback holds, by what stands between the first
    occurrence of its label and the first occurrence of its anchor after
    it: the fallback when there is no such pair or only whitespace stands
    between the two, and else the text between them, trimmed and followed
    by the suffix of the field. *)
Definition field_reading (text : jsstring) (label after : list atom)
           (fallback suffix : jsstring) (field : option value) : Prop :=
  (between text label after = None -> field = Some (Str fallback))
  /\ (forall v, between text label after = Some v -> blank v = true ->
                field = Some (Str fallback))
  /\ (forall v, between text label after = Some v -> well_formed v = true ->
                field = Some (Str (trim v ++ suffix))).

(** The label stands somewhere in the text with nothing but whitespace
    between it and the anchor. *)
Definition immediately_before_at (l a : list atom) (s : jsstring) : bool :=
  label_at l s && label_at a (trimStart (skipn (length l) s)).

Fixpoint immediately_before (l a : list atom) (s : jsstring) : bool :=
  immediately_before_at l a s
  || match s with
     | [] => false
     | _ :: s' => immediately_before l a s'
     end.

End AnchorPair.
Import AnchorPair.

(** ** Single spaces

    Line 50 in the words of the specification: every line break, which is
    a line feed or a carriage return with the line feed after it, becomes a
    space; then every run of two or more whitespace code units becomes a
    space. *)

Module SingleSpaces.

Fixpoint breaks_to_spaces (s : jsstring) : jsstring :=
  match s with
  | [] => []
  | x :: s' =>
      match s' with
      | y :: r =>
          if ((x =? 13) && (y =? 10))%N then 32%N :: breaks_to_spaces r
          else if (x =? 10)%N then 32%N :: breaks_to_spaces s'
          else x :: breaks_to_spaces s'
      | [] => if (x =? 10)%N then [32%N] else [x]
      end
  end.

(** [inside]: the code units just before belong to a run that has been
    replaced. *)
Fixpoint runs_to_spaces (inside : bool) (s : jsstring) : jsstring :=
  match s with
  | [] => []
  | x :: s' =>
      if is_space x
      then if inside then runs_to_spaces true s'
           else match s' with
                | y :: _ =>
                    if is_space y then 32%N :: runs_to_spaces true s'
                    else x :: runs_to_spaces false s'
                | [] => [x]
                end
      else x :: runs_to_spaces false s'
  end.

Definition single_spaces (s : jsstring) : jsstring :=
  runs_to_spaces false (breaks_to_spaces s).

End SingleSpaces.
Import SingleSpaces.

(** The second replacement of line 50 on its own. *)
Definition collapse (s : jsstring) : jsstring :=
  replace false whitespace_run (js " ") s.

Definition head_space (s : jsstring) : bool :=
  match s with
  | c :: _ => is_space c
  | [] => false
  end.

(** No whitespace at the end: no suffix but the empty one is blank. *)
Definition ends_clean (s : jsstring) : Prop :=
  forall t1 t2, s = t1 ++ t2 -> blank t2 = true -> t2 = [].

(** Two whitespace code units side by side. *)
Fixpoint adjacent_spaces (s : jsstring) : bool :=
  match s with
  | x :: ((y :: _) as s') => (is_space x && is_space y) || adjacent_spaces s'
  | _ => false
  end.


Definition populated (v : value) : bool :=
  match v with
  | Str s => truthy s
  | Null => false
  end.

Definition cbe_schema : list string :=
  [ "payer"; "payerAccount"; "receiver"; "receiverAccount";
    "paymentDateTime"; "referenceNo"; "reason"; "totalAmount" ]%string.

Definition telebirr_schema : list string :=
  [ "paymentType"; "payerName"; "payerTelebirrNumber"; "creditedPartyName";
    "bankAccountNumber"; "receiptNumber"; "paymentDate"; "totalAmountPaid" ]%string.

(** ** Receipt pages

    The pages that the properties of the cells of [parseTelebirr] are
    stated for: one table body of rows of cells, anywhere in a page that
    has no other [td] element.  Text can stand between the rows and between
    the cells, as the parser leaves it where the markup has line breaks or
    indentation, and a cell can hold text and elements. *)

Module ReceiptPage.
Import Cheerio.

(** What stands in a table body or in a row: text, or a row or a cell. *)
Inductive piece (A : Type) :=
| Gap (t : jsstring)
| Item (a : A).
Arguments Gap {A} t.
Arguments Item {A} a.

Definition items {A : Type} (ps : list (piece A)) : list A :=
  flat_map (fun p => match p with Gap _ => [] | Item a => [a] end) ps.

Record cell := {
  cell_classes : list string;
  cell_content : list node
}.

Definition row := list (piece cell).
Definition table_body := list (piece row).

Definition cell_node (c : cell) : node :=
  Element "td" (cell_classes c) (cell_content c).

Definition piece_node {A : Type} (f : A -> node) (p : piece A) : node :=
  match p with
  | Gap t => Text t
  | Item a => f a
  end.

Definition row_node (r : row) : node :=
  Element "tr" [] (map (piece_node cell_node) r).

Definition body_nodes (b : table_body) : list node :=
  map (piece_node row_node) b.

(** An element around the table body, with the nodes that stand before and
    after it in its parent. *)
Record frame := {
  frame_before : list node;
  frame_tag : string;
  frame_classes : list string;
  frame_after : list node
}.

Fixpoint plug (ctx : list frame) (inner : list node) : document :=
  match ctx with
  | [] => inner
  | f :: ctx' =>
      frame_before f
        ++ Element (frame_tag f) (frame_classes f) (plug ctx' inner)
        :: frame_after f
  end.

Definition table_page (ctx : list frame) (b : table_body) : document :=
  plug ctx (body_nodes b).

Fixpoint has_td (n : node) : bool :=
  match n with
  | Text _ => false
  | Element name _ cs => String.eqb name "td" || existsb has_td cs
  end.

Definition plain_frame (f : frame) : bool :=
  negb (String.eqb (frame_tag f) "td")
  && negb (existsb has_td (frame_before f))
  && negb (existsb has_td (frame_after f)).

Definition plain_cell (c : cell) : bool :=
  negb (existsb has_td (cell_content c)).

(** The cells of the table body are the only [td] elements of the page. *)
Definition plain (ctx : list frame) (b : table_body) : bool :=
  forallb plain_frame ctx
  && forallb (fun r => forallb plain_cell (items r)) (items b).

(** *** What a receipt says, read off its rows

    The rows and their cells without the text between them; the text of a
    cell as [:contains] sees it and as [.text()] returns it. *)
Definition grid (b : table_body) : list (list cell) :=
  map (@items cell) (items b).

Definition cell_label (c : cell) : jsstring := flat_map getText (cell_content c).
Definition cell_text (c : cell) : jsstring := flat_map textContent (cell_content c).

(** The texts of the cells that stand right after a cell with the label. *)
Fixpoint row_values (label : jsstring) (cells : list cell) : jsstring :=
  match cells with
  | [] => []
  | c :: rest =>
      (if includes (cell_label c) label
       then match rest with
            | v :: _ => cell_text v
            | [] => []
            end
       else [])
      ++ row_values label rest
  end.

Definition labelled_value (label : jsstring) (b : table_body) : jsstring :=
  flat_map (row_values label) (grid b).

(** No cell has the label. *)
Definition unlabelled (label : jsstring) (rows : list (list cell)) : bool :=
  forallb (forallb (fun c => negb (includes (cell_label c) label))) rows.

Definition is_marked (c : cell) : bool :=
  existsb (String.eqb "receipttableTd2") (cell_classes c).

Definition unmarked (rows : list (list cell)) : bool :=
  forallb (forallb (fun c => negb (is_marked c))) rows.

(** The cells right of the first marked cell of a row, and, for the first
    row that has a marked cell, those cells and the rows below it. *)
Fixpoint right_of_marked (cells : list cell) : option (list cell) :=
  match cells with
  | [] => None
  | c :: rest => if is_marked c then Some rest else right_of_marked rest
  end.

Fixpoint below_marked (rows : list (list cell))
  : option (list cell * list (list cell)) :=
  match rows with
  | [] => None
  | r :: below =>
      match right_of_marked r with
      | Some beside => Some (beside, below)
      | None => below_marked below
      end
  end.

(** The text of cell [n] of the first of the rows. *)
Definition nth_cell_text (n : nat) (rows : list (list cell)) : jsstring :=
  match rows with
  | r :: _ =>
      match nth_error r n with
      | Some c => cell_text c
      | None => []
      end
  | [] => []
  end.

Definition receipt_number_of (b : table_body) : jsstring :=
  match below_marked (grid b) with
  | Some (_, below) => nth_cell_text 0 below
  | None => []
  end.

Definition payment_date_of (b : table_body) : jsstring :=
  match below_marked (grid b) with
  | Some (_ :: _, below) => nth_cell_text 1 below
  | _ => []
  end.

End ReceiptPage.
Import ReceiptPage.

(** ** Selections, read off the tree

    What the proofs about the traversals use: an element that a selector
    picks, with the place where it stands, what it is, and the nodes that
    follow it in its parent. *)

Module Selections.
Import Cheerio.

Definition hit := (path * node * list node)%type.

Definition hit_path (h : hit) : path := fst (fst h).
Definition hit_node (h : hit) : node := snd (fst h).
Definition hit_rest (h : hit) : list node := snd h.

Definition prefixed (up : path) (h : hit) : hit :=
  (up ++ hit_path h, hit_node h, hit_rest h).

Section Located.
Variable below : node -> list node -> list hit.
Fixpoint located (i : nat) (ns : list node) : list hit :=
  match ns with
  | [] => []
  | n :: ns' => map (prefixed [i]) (below n ns') ++ located (S i) ns'
  end.
End Located.

(** The elements of a subtree that pass a test, in document order. *)
Fixpoint hits (test : node -> bool) (n : node)
         (rest : list node) : list hit :=
  match n with
  | Text _ => []
  | Element _ _ cs =>
      (if test n then [([], n, rest)] else []) ++ located (hits test) 0 cs
  end.

Definition all_hits (test : node -> bool) (d : document) : list hit :=
  located (hits test) 0 d.

(** The nodes that follow the node at a path in its parent, and what the
    path leads to. *)
Definition later_siblings (d : document) (p : path)
  : list node :=
  match rev p with
  | [] => []
  | i :: up => skipn (S i) (siblings d (rev up))
  end.

Definition seen (d : document) (p : path) : option hit :=
  match node_at d p with
  | Some n => Some (p, n, later_siblings d p)
  | None => None
  end.

(** The text of the first element among the nodes. *)
Definition next_text (ns : list node) : jsstring :=
  match find is_element ns with
  | Some n => textContent n
  | None => []
  end.

(** A test that only [td] elements pass. *)
Definition td_only (test : node -> bool) : Prop :=
  forall n, test n = true -> is_td n = true.

(** The path of the table body in a page. *)
Definition base (ctx : list frame) : path :=
  map (fun f => length (frame_before f)) ctx.

(** The text that [.next().text()] reads for an element that was picked. *)
Definition rest_text (h : hit) : jsstring := next_text (hit_rest h).

(** The test of the selector [td.receipttableTd2]. *)
Definition marker : node -> bool := holds_class "receipttableTd2".

End Selections.
Import Selections.

(** ** Sample inputs *)

Module Samples.
Import Cheerio.

(** The text of a CBE receipt, as pdf-parse returns it. *)
Definition receipt_text : jsstring := js "Commercial Bank of Ethiopia
Payer  ABEBE KEBEDE
Account 1****1234
Receiver MOTUMA ADMASU
Account 1****8067
Payment Date & Time 5/10/2025, 10:30:00 AM
Reference No. (VAT Invoice No) FT25130ABCDE
Reason / Type of service Payment done via Mobile
Transferred Amount 100.00 ETB
Commission or Service Charge 0.00 ETB
Total amount debited from customers account 100.00 ETB
Amount in Word ETB One Hundred".

(** A receipt on which the payer has no account line. *)
Definition receipt_without_payer_account : jsstring := js "Payer ABEBE
Receiver MOTUMA
Account 1****8067 ref 77
Payment Date & Time 5/10/2025
Reason paid to the receiver".

Definition cell_of (classes : list string) (t : string) : cell :=
  {| cell_classes := classes; cell_content := [Text (js t)] |}.
Definition td (classes : list string) (t : string) : piece cell :=
  Item (cell_of classes t).
Definition tr (cells : row) : piece row := Item cells.

(** A label cell in which a line break stands inside the label. *)
Definition broken_label : cell :=
  {| cell_classes := [];
     cell_content := [ Text (js "የከፋይ ስም/"); Element "br" [] [];
                       Text (js "Payer Name") ] |}.

(** A Telebirr receipt whose bank account cell holds blanks only, as the
    parser returns it: the table body inside [html], [body] and
    [table], after the [head]. *)
Definition receipt_context : list frame :=
  [ {| frame_before := []; frame_tag := "html"; frame_classes := [];
       frame_after := [] |};
    {| frame_before := [Element "head" [] [Element "title" [] [Text (js "telebirr")]]];
       frame_tag := "body"; frame_classes := []; frame_after := [] |};
    {| frame_before := [Text (js " ")]; frame_tag := "table"; frame_classes := [];
       frame_after := [Text (js " ")] |};
    {| frame_before := []; frame_tag := "tbody"; frame_classes := [];
       frame_after := [] |} ]%string.

Definition receipt_rows : table_body :=
  [ Item [td [] "የከፋይ ስም/Payer Name"; Gap (js " "); td [] " Abebe "];
    Gap (js " ");
    Item [td [] "የከፋይ ቴሌብር ቁ./Payer telebirr no."; td [] "2519****1234"];
    Item [td [] "የገንዘብ ተቀባይ ስም/Credited Party name"; td [] "Motuma"];
    Item [td [] "የክፍያ ምክንያት/Payment Reason"; td [] "Transfer"];
    Item [td [] "የባንክ አካውንት ቁጥር/Bank account number"; td [] "  "];
    Item [td ["receipttableTd"; "receipttableTd2"] "Receipt No.";
          td ["receipttableTd"] "Payment date"; td [] "Settled Amount"];
    Gap (js " ");
    Item [td ["receipttableTd"; "receipttableTd2"] "CE123";
          td ["receipttableTd"] "16-05-2025"; td [] "100 Birr"];
    Item [td [] "ጠቅላላ የተከፈለ/Total Paid Amount"; td [] "100 Birr"] ]%string.

Definition receipt_page : document := table_page receipt_context receipt_rows.

(** The markup of that page. *)
Definition receipt_html : jsstring :=
  js "<html><head><title>telebirr</title></head><body> <table><tbody><tr><td>የከፋይ ስም/Payer Name</td> <td> Abebe </td></tr> <tr><td>የከፋይ ቴሌብር ቁ./Payer telebirr no.</td><td>2519****1234</td></tr><tr><td>የገንዘብ ተቀባይ ስም/Credited Party name</td><td>Motuma</td></tr><tr><td>የክፍያ ምክንያት/Payment Reason</td><td>Transfer</td></tr><tr><td>የባንክ አካውንት ቁጥር/Bank account number</td><td>  </td></tr><tr><td class='receipttableTd receipttableTd2'>Receipt No.</td><td class='receipttableTd'>Payment date</td><td>Settled Amount</td></tr> <tr><td class='receipttableTd receipttableTd2'>CE123</td><td class='receipttableTd'>16-05-2025</td><td>100 Birr</td></tr><tr><td>ጠቅላላ የተከፈለ/Total Paid Amount</td><td>100 Birr</td></tr></tbody></table> </body></html>".
Definition error_html : jsstring := js "<p>This request is not correct</p>".

(** A network in which every document is served and the page is parsed
    into the tree above, and one in which no request succeeds. *)
Definition serve_pdf (_ : jsstring) : outcome jsstring := Ok receipt_text.
Definition read_pdf (buffer : jsstring) : outcome jsstring := Ok buffer.
Definition serve_page (_ : jsstring) : outcome jsvalue := Ok (VString receipt_html).
Definition serve_error_page (_ : jsstring) : outcome jsvalue :=
  Ok (VString error_html).
Definition serve_number (_ : jsstring) : outcome jsvalue := Ok (VNumber (js "123")).
Definition load_page (_ : jsvalue) : outcome document := Ok receipt_page.
Definition engine_message (v : jsvalue) : jsstring :=
  match v with
  | VNull => js "Cannot read properties of null (reading 'includes')"
  | _ => js "html.includes is not a function"
  end.
Definition unreachable {A : Type} (_ : jsstring) : outcome A :=
  Throw (js "Request failed with status code 500").
Definition corrupt (_ : jsstring) : outcome jsstring := Throw (js "Invalid PDF structure").

Definition a_request (transactionId : string) : request :=
  {| param_transactionId := js transactionId;
     header_x_forwarded_for := None;
     socket_remoteAddress := Some (js "127.0.0.1");
     header_user_agent := Some (js "curl/8.5.0") |}.

End Samples.

(** ** Vocabulary of the further properties *)

(** The first replacement of line 50 on its own. *)
Definition unbreak (s : jsstring) : jsstring :=
  replace false line_break (js " ") s.

(** The code units of a text that are not whitespace, in order. *)
Definition visible (s : jsstring) : jsstring :=
  filter (fun c => negb (is_space c)) s.

(** A value without whitespace at either end, on one line, with single
    whitespace between its words. *)
Definition tidy (v : jsstring) : Prop :=
  trim v = v /\ forallb is_dot v = true /\ adjacent_spaces v = false.

Definition tidy_value (v : value) : Prop :=
  match v with
  | Str s => tidy s
  | Null => True
  end.

Definition trimmed_value (v : value) : Prop :=
  match v with
  | Str s => trim s = s
  | Null => False
  end.

(** The [source] that each extractor writes. *)
Definition network_name (n : SourceNetwork) : jsstring :=
  match n with
  | CBE => js "CBE"
  | Telebirr => js "Telebirr"
  end.

(** A row of the log that is consistent with the request it was written
    for. *)
Definition entry_ok (e : LogEntry) : Prop :=
  route (log_transactionId e)
    = (match startsWith (log_transactionId e) (js "FT") with
       | true => CBE
       | false => Telebirr
       end, log_link e)
  /\ transactionId (log_response e) = log_transactionId e
  /\ link (log_response e) = log_link e
  /\ source (log_response e) = network_name (fst (route (log_transactionId e)))
  /\ truthy (log_ip e) = true
  /\ truthy (log_userAgent e) = true.

(** Two texts that differ in the case of their ASCII letters only. *)
Definition same_letters (s t : jsstring) : Prop :=
  Forall2 (fun x y => canonicalize x = canonicalize y) s t.

Definition same_value (v v' : value) : Prop :=
  match v, v' with
  | Null, Null => True
  | Str s, Str s' => same_letters s s'
  | _, _ => False
  end.

Definition same_data (o o' : list (string * value)) : Prop :=
  Forall2 (fun kv kv' => fst kv = fst kv' /\ same_value (snd kv) (snd kv')) o o'.

(** An atom that does not tell the two cases of a letter apart. *)
Definition respects (ignoreCase : bool) (a : atom) : Prop :=
  forall x y, canonicalize x = canonicalize y ->
              atom_match ignoreCase a x = atom_match ignoreCase a y.

Definition item_atom (i : item) : atom :=
  match i with
  | One a | Opt a | Star a | LazyGroup a => a
  end.

(** Results of the matcher on two such texts. *)
Definition same_result (r r' : option result) : Prop :=
  match r, r' with
  | None, None => True
  | Some (g, t), Some (g', t') => same_letters g g' /\ same_letters t t'
  | _, _ => False
  end.

Definition same_continuation (k k' : jsstring -> option result) : Prop :=
  forall s t, same_letters s t -> same_result (k s) (k' t).

(** * Properties *)

(** ** Strings *)

Lemma startsWith_app (p r : jsstring) : startsWith (p ++ r) p = true.
Proof.
  induction p as [|c p IH]; simpl; [reflexivity|].
  now rewrite N.eqb_refl, IH.
Qed.

Lemma startsWith_inv (p s : jsstring) :
  startsWith s p = true -> exists r, s = p ++ r.
Proof.
  revert s; induction p as [|c p IH]; intros s H.
  - now exists s.
  - destruct s as [|x s]; simpl in H; [discriminate|].
    apply andb_true_iff in H as [Hx Hs].
    apply N.eqb_eq in Hx; subst x.
    destruct (IH _ Hs) as [r ->].
    now exists r.
Qed.

Lemma startsWith_false (p s : jsstring) :
  (forall r, s <> p ++ r) -> startsWith s p = false.
Proof.
  intros H. destruct (startsWith s p) eqn:E; [|reflexivity].
  destruct (startsWith_inv _ _ E) as [r ->]. now destruct (H r).
Qed.

Lemma includes_here (p s : jsstring) :
  startsWith s p = true -> includes s p = true.
Proof. intros H. destruct s; simpl; now rewrite H. Qed.

Lemma includes_app (a p b : jsstring) : includes (a ++ p ++ b) p = true.
Proof.
  induction a as [|x a IH]; simpl.
  - apply includes_here, startsWith_app.
  - rewrite IH. apply orb_true_r.
Qed.

Lemma includes_inv (p s : jsstring) :
  includes s p = true -> exists a b, s = a ++ p ++ b.
Proof.
  induction s as [|x s IH]; simpl; intros H.
  - rewrite orb_false_r in H. destruct (startsWith_inv _ _ H) as [r ->].
    now exists [], r.
  - apply orb_true_iff in H as [H|H].
    + destruct (startsWith_inv _ _ H) as [r ->]. now exists [], r.
    + destruct (IH H) as (a & b & ->). now exists (x :: a), b.
Qed.

(** ** The router *)

Lemma route_FT (rest : jsstring) :
  route (js "FT" ++ rest) = (CBE, cbe_link (js "FT" ++ rest)).
Proof. unfold route. now rewrite startsWith_app. Qed.

Lemma route_other (transactionId : jsstring) :
  (forall rest, transactionId <> js "FT" ++ rest) ->
  route transactionId = (Telebirr, telebirr_link transactionId).
Proof. intros H. unfold route. now rewrite startsWith_false. Qed.

Section RouterProperties.
Variable Buffer : Type.
Variable axios_get_arraybuffer : jsstring -> outcome Buffer.
Variable pdfParse : Buffer -> outcome jsstring.
Variable axios_get : jsstring -> outcome jsvalue.
Variable type_error : jsvalue -> jsstring.
Variable cheerio_load : jsvalue -> outcome Cheerio.document.

Let resolve := resolve axios_get_arraybuffer pdfParse axios_get type_error cheerio_load.

(** The handler calls the extractor of the network that [route] selects,
    on the link that [route] builds. *)
Lemma resolve_route (transactionId : jsstring) :
  resolve transactionId =
  match route transactionId with
  | (CBE, link) =>
      result <- parseFT axios_get_arraybuffer pdfParse link transactionId ;;
      Ok (link, result)
  | (Telebirr, link) =>
      result <- parseTelebirr axios_get type_error cheerio_load link transactionId ;;
      Ok (link, result)
  end.
Proof.
  unfold resolve, Server.resolve, route.
  now destruct (startsWith transactionId (js "FT")).
Qed.

(** C1: an identifier that starts with [FT] is routed to CBE, with the
    link [https://apps.cbe.com.et:100/?id=<identifier>W09338067]; every
    other identifier is routed to Telebirr, with the link
    [https://transactioninfo.ethiotelecom.et/receipt/<identifier>]; the
    handler then runs the extractor of the selected network on that
    link. *)
Theorem route_by_prefix (transactionId : jsstring) :
  ((exists rest, transactionId = js "FT" ++ rest) ->
     route transactionId =
       (CBE, js "https://apps.cbe.com.et:100/?id=" ++ transactionId ++ js "W09338067")
     /\ resolve transactionId =
          (result <- parseFT axios_get_arraybuffer pdfParse
                       (cbe_link transactionId) transactionId ;;
           Ok (cbe_link transactionId, result)))
  /\ ((~ exists rest, transactionId = js "FT" ++ rest) ->
     route transactionId =
       (Telebirr, js "https://transactioninfo.ethiotelecom.et/receipt/" ++ transactionId)
     /\ resolve transactionId =
          (result <- parseTelebirr axios_get type_error cheerio_load
                       (telebirr_link transactionId) transactionId ;;
           Ok (telebirr_link transactionId, result))).
Proof.
  split.
  - intros [rest ->]. rewrite resolve_route, route_FT. now split.
  - intros H. rewrite resolve_route, route_other; [now split|].
    intros rest E. apply H. now exists rest.
Qed.
End RouterProperties.

Lemma route_by_prefix_witness :
  route (js "FT25130ABCDE") =
    (CBE, js "https://apps.cbe.com.et:100/?id=FT25130ABCDEW09338067")
  /\ route (js "CE12345678") =
       (Telebirr, js "https://transactioninfo.ethiotelecom.et/receipt/CE12345678").
Proof.
  split.
  - apply (proj1 (route_by_prefix Samples.serve_pdf Samples.read_pdf
                    Samples.serve_page Samples.engine_message Samples.load_page
                    (js "FT25130ABCDE"))).
    exists (js "25130ABCDE"). vm_compute. reflexivity.
  - apply (proj2 (route_by_prefix Samples.serve_pdf Samples.read_pdf
                    Samples.serve_page Samples.engine_message Samples.load_page
                    (js "CE12345678"))).
    intros [rest E]. vm_compute in E. discriminate E.
Defined.

(** C10: the dispatch is a total function of the identifier and compares
    the two code units [F] and [T] as they are: the empty identifier, an
    identifier that starts with [ft], [Ft] or [fT], and every identifier
    that does not start with [FT] are routed to Telebirr. *)
Theorem route_total_case_sensitive :
  route [] = (Telebirr, js "https://transactioninfo.ethiotelecom.et/receipt/")
  /\ (forall rest,
        route (js "ft" ++ rest) = (Telebirr, telebirr_link (js "ft" ++ rest))
        /\ route (js "Ft" ++ rest) = (Telebirr, telebirr_link (js "Ft" ++ rest))
        /\ route (js "fT" ++ rest) = (Telebirr, telebirr_link (js "fT" ++ rest)))
  /\ (forall transactionId,
        (forall rest, transactionId <> js "FT" ++ rest) ->
        route transactionId =
          (Telebirr,
           js "https://transactioninfo.ethiotelecom.et/receipt/" ++ transactionId)).
Proof.
  split; [vm_compute; reflexivity|]. split.
  - intros rest. repeat split; apply route_other; intros r E; vm_compute in E; discriminate E.
  - intros transactionId H. rewrite (route_other H). reflexivity.
Qed.

Lemma route_total_case_sensitive_witness :
  route (js "ft25130ABCDE") =
    (Telebirr, js "https://transactioninfo.ethiotelecom.et/receipt/ft25130ABCDE").
Proof.
  apply (proj2 (proj2 route_total_case_sensitive) (js "ft25130ABCDE")).
  intros rest E. vm_compute in E. discriminate E.
Defined.

(** ** The keys of a record *)

Lemma parseFT_inv (Buffer : Type) (axios_get_arraybuffer : jsstring -> outcome Buffer)
      (pdfParse : Buffer -> outcome jsstring) (link transactionId : jsstring)
      (r : CanonicalPaymentRecord) :
  parseFT axios_get_arraybuffer pdfParse link transactionId = Ok r ->
  exists buffer pdfText,
    axios_get_arraybuffer link = Ok buffer
    /\ pdfParse buffer = Ok pdfText
    /\ r = cbe_record link transactionId (flatten pdfText).
Proof.
  unfold parseFT, bind. intros H.
  destruct (axios_get_arraybuffer link) as [buffer|]; [|discriminate].
  destruct (pdfParse buffer) as [pdfText|] eqn:E; [|discriminate].
  exists buffer, pdfText. now inversion H.
Qed.

Lemma parseTelebirr_inv (axios_get : jsstring -> outcome jsvalue)
      (type_error : jsvalue -> jsstring)
      (cheerio_load : jsvalue -> outcome Cheerio.document)
      (link transactionId : jsstring) (r : CanonicalPaymentRecord) :
  parseTelebirr axios_get type_error cheerio_load link transactionId = Ok r ->
  exists html d,
    axios_get link = Ok html
    /\ includes_sentinel type_error html = Ok false
    /\ cheerio_load html = Ok d
    /\ r = telebirr_record link transactionId d.
Proof.
  unfold parseTelebirr, bind. intros H.
  destruct (axios_get link) as [html|]; [|discriminate].
  destruct (includes_sentinel type_error html) as [[|]|] eqn:Es; try discriminate.
  destruct (cheerio_load html) as [d|] eqn:El; [|discriminate].
  exists html, d. now inversion H.
Qed.

(** C2: a record returned by [parseFT] has the eight CBE keys and a record
    returned by [parseTelebirr] the eight Telebirr keys, in the order of the
    schema, whatever the document held. *)
Theorem record_keys_fixed
        (Buffer : Type) (axios_get_arraybuffer : jsstring -> outcome Buffer)
        (pdfParse : Buffer -> outcome jsstring)
        (axios_get : jsstring -> outcome jsvalue)
        (type_error : jsvalue -> jsstring)
        (cheerio_load : jsvalue -> outcome Cheerio.document)
        (link transactionId : jsstring) (r : CanonicalPaymentRecord) :
  (parseFT axios_get_arraybuffer pdfParse link transactionId = Ok r ->
     keys (data r) =
       [ "payer"; "payerAccount"; "receiver"; "receiverAccount";
         "paymentDateTime"; "referenceNo"; "reason"; "totalAmount" ]%string)
  /\ (parseTelebirr axios_get type_error cheerio_load link transactionId = Ok r ->
     keys (data r) =
       [ "paymentType"; "payerName"; "payerTelebirrNumber"; "creditedPartyName";
         "bankAccountNumber"; "receiptNumber"; "paymentDate"; "totalAmountPaid" ]%string).
Proof.
  split; intros H.
  - apply parseFT_inv in H as (buffer & pdfText & _ & _ & ->). reflexivity.
  - apply parseTelebirr_inv in H as (html & d & _ & _ & _ & ->). reflexivity.
Qed.

Lemma record_keys_fixed_witness :
  keys (data (cbe_record (cbe_link (js "FT1")) (js "FT1") (flatten Samples.receipt_text)))
    = cbe_schema
  /\ keys (data (telebirr_record (telebirr_link (js "CE1")) (js "CE1") Samples.receipt_page))
    = telebirr_schema.
Proof.
  split.
  - apply (proj1 (record_keys_fixed Samples.serve_pdf Samples.read_pdf
                    Samples.serve_page Samples.engine_message Samples.load_page
                    (cbe_link (js "FT1")) (js "FT1") _)).
    reflexivity.
  - apply (proj2 (record_keys_fixed Samples.serve_pdf Samples.read_pdf
                    Samples.serve_page Samples.engine_message Samples.load_page
                    (telebirr_link (js "CE1")) (js "CE1") _)).
    vm_compute. reflexivity.
Defined.

(** ** Fallbacks *)

Lemma or_else_populated (v : value) (d : jsstring) :
  truthy d = true -> populated (or_else v d) = true.
Proof.
  intros Hd. destruct v as [|s]; simpl; [exact Hd|].
  destruct (truthy s) eqn:E; simpl; [exact E|exact Hd].
Qed.





(** ** The Telebirr extractor *)

Lemma trimStart_blank (s : jsstring) : blank s = true -> trimStart s = [].
Proof.
  induction s as [|x s IH]; simpl; [reflexivity|].
  intros H. apply andb_true_iff in H as [Hx Hs]. now rewrite Hx, IH.
Qed.

Lemma trim_blank (s : jsstring) : blank s = true -> trim s = [].
Proof. intros H. unfold trim. now rewrite trimStart_blank. Qed.

(** C6: a page that contains [This request is not correct] makes
    [parseTelebirr] throw the error [Invalid Telebirr transaction ID]; no
    record is returned. *)
Theorem sentinel_page_rejected
        (axios_get : jsstring -> outcome jsvalue)
        (type_error : jsvalue -> jsstring)
        (cheerio_load : jsvalue -> outcome Cheerio.document)
        (link transactionId html : jsstring) :
  axios_get link = Ok (VString html) ->
  (exists before after,
      html = before ++ js "This request is not correct" ++ after) ->
  parseTelebirr axios_get type_error cheerio_load link transactionId
    = Throw (js "Invalid Telebirr transaction ID").
Proof.
  intros Hget (before & after & ->).
  unfold parseTelebirr, bind. rewrite Hget.
  cbn [includes_sentinel]. unfold sentinel. now rewrite includes_app.
Qed.

Lemma sentinel_page_rejected_witness :
  parseTelebirr Samples.serve_error_page Samples.engine_message Samples.load_page
                (telebirr_link (js "CE1")) (js "CE1")
    = Throw (js "Invalid Telebirr transaction ID").
Proof.
  apply (@sentinel_page_rejected Samples.serve_error_page Samples.engine_message
           Samples.load_page (telebirr_link (js "CE1")) (js "CE1")
           Samples.error_html).
  - reflexivity.
  - exists (js "<p>"), (js "</p>"). vm_compute. reflexivity.
Defined.

(** ** The cheerio traversals, read off the tree *)

Section Paths.
Import Cheerio.

Lemma node_induction (P : node -> Prop) :
  (forall t, P (Text t)) ->
  (forall name classes cs, Forall P cs -> P (Element name classes cs)) ->
  forall n, P n.
Proof.
  intros HT HE. fix IH 1. intros [t|name classes cs]; [apply HT|].
  apply HE. induction cs as [|c cs IHcs]; constructor; [apply IH|exact IHcs].
Qed.

Lemma node_at_single (ns : list node) (i : nat) :
  node_at ns [i] = nth_error ns i.
Proof. cbn [node_at]. now destruct (nth_error ns i). Qed.

Lemma node_at_cons (ns : list node) (i : nat) (q : path) :
  q <> [] ->
  node_at ns (i :: q) =
  match nth_error ns i with
  | Some n => node_at (children_of n) q
  | None => None
  end.
Proof. destruct q; [now intros []|reflexivity]. Qed.

Lemma node_at_nil_forest (q : path) : node_at [] q = None.
Proof. destruct q as [|i q]; [reflexivity|]. cbn [node_at]. now destruct i. Qed.

Lemma node_at_app (d : document) (up q : path) :
  up <> [] -> q <> [] ->
  node_at d (up ++ q) =
  match node_at d up with
  | Some n => node_at (children_of n) q
  | None => None
  end.
Proof.
  revert d. induction up as [|i up IH]; intros d Hup Hq; [now destruct Hup|].
  destruct up as [|j up].
  - cbn [app]. rewrite node_at_cons by exact Hq. rewrite node_at_single.
    reflexivity.
  - change ((i :: j :: up) ++ q) with (i :: (j :: up) ++ q).
    rewrite node_at_cons by discriminate.
    rewrite (@node_at_cons d i (j :: up)) by discriminate.
    destruct (nth_error d i) as [n|]; [|reflexivity].
    apply IH; [discriminate|exact Hq].
Qed.

Lemma node_at_siblings (d : document) (up q : path) :
  q <> [] -> node_at d (up ++ q) = node_at (siblings d up) q.
Proof.
  intros Hq. destruct up as [|i up]; [reflexivity|].
  rewrite node_at_app by (discriminate || exact Hq).
  unfold siblings.
  destruct (node_at d (i :: up)) as [n|]; [reflexivity|].
  now rewrite node_at_nil_forest.
Qed.

Lemma siblings_snoc (d : document) (up : path) (i : nat) :
  siblings d (up ++ [i]) =
  match nth_error (siblings d up) i with
  | Some n => children_of n
  | None => []
  end.
Proof.
  assert (E : node_at d (up ++ [i]) = nth_error (siblings d up) i).
  { rewrite node_at_siblings by discriminate. apply node_at_single. }
  unfold siblings at 1. rewrite E.
  destruct (up ++ [i]) eqn:Eu; [now destruct up|reflexivity].
Qed.

Lemma nth_error_middle (A : Type) (pre rest : list A) (x : A) :
  nth_error (pre ++ x :: rest) (length pre) = Some x.
Proof. rewrite nth_error_app2 by lia. now rewrite Nat.sub_diag. Qed.

Lemma skipn_middle (A : Type) (pre rest : list A) (x : A) :
  skipn (S (length pre)) (pre ++ x :: rest) = rest.
Proof.
  replace (pre ++ x :: rest) with ((pre ++ [x]) ++ rest)
    by (now rewrite <- app_assoc).
  replace (S (length pre)) with (length (pre ++ [x]))
    by (rewrite length_app; cbn [length]; lia).
  induction (pre ++ [x]); simpl; auto.
Qed.

Lemma later_siblings_snoc (d : document) (up : path) (i : nat) :
  later_siblings d (up ++ [i]) = skipn (S i) (siblings d up).
Proof.
  unfold later_siblings. rewrite rev_unit. now rewrite rev_involutive.
Qed.

Lemma next_sibling_snoc (d : document) (up : path) (i : nat) :
  next_sibling d (up ++ [i]) =
  match first_element (S i) (skipn (S i) (siblings d up)) with
  | Some j => [up ++ [j]]
  | None => []
  end.
Proof.
  unfold next_sibling. rewrite rev_unit. now rewrite rev_involutive.
Qed.

Lemma first_element_find (l : list node) :
  forall k,
    (first_element k l = None /\ find is_element l = None)
    \/ exists j m,
        first_element k l = Some (k + j)%nat
        /\ nth_error l j = Some m
        /\ find is_element l = Some m.
Proof.
  induction l as [|n l IH]; intros k; [now left|].
  cbn [first_element find].
  destruct (is_element n).
  - right. exists 0%nat, n. now rewrite Nat.add_0_r.
  - destruct (IH (S k)) as [[H1 H2]|(j & m & H1 & H2 & H3)].
    + now left.
    + right. exists (S j), m. rewrite Nat.add_succ_r. now repeat split.
Qed.

Lemma nth_error_skipn_add (A : Type) (l : list A) :
  forall k j, nth_error (skipn k l) j = nth_error l (k + j).
Proof.
  induction l as [|x l IH]; intros k j.
  - rewrite skipn_nil. now destruct j, k.
  - destruct k; [reflexivity|]. cbn [skipn Nat.add nth_error]. apply IH.
Qed.

(** [.next().text()] of one element: the text of the first element among
    the nodes that follow it. *)
Lemma text_next_sibling (d : document) (p : path) :
  text d (next_sibling d p) = next_text (later_siblings d p).
Proof.
  destruct (rev p) as [|i up] eqn:E.
  - unfold next_sibling, later_siblings. rewrite E. reflexivity.
  - assert (Ep : p = rev up ++ [i]).
    { rewrite <- (rev_involutive p), E. reflexivity. }
    rewrite Ep, next_sibling_snoc, later_siblings_snoc.
    unfold next_text.
    destruct (first_element_find (skipn (S i) (siblings d (rev up))) (S i))
      as [[H1 H2]|(j & m & H1 & H2 & H3)].
    + now rewrite H1, H2.
    + rewrite H1, H3. unfold text. cbn [flat_map].
      rewrite node_at_siblings by discriminate.
      rewrite node_at_single, <- nth_error_skipn_add, H2.
      now rewrite app_nil_r.
Qed.

Lemma text_next (d : document) (sel : selection) :
  text d (next d sel) = flat_map (fun p => next_text (later_siblings d p)) sel.
Proof.
  unfold next. induction sel as [|p sel IH]; [reflexivity|].
  cbn [flat_map]. rewrite <- IH, <- text_next_sibling.
  unfold text. now rewrite flat_map_app.
Qed.

Section Hits.
Variable test : node -> bool.

Let picks (d : document) (p : path) : bool :=
  match node_at d p with Some n => test n | None => false end.

Lemma hits_at_list (cs : list node) :
  Forall (fun n =>
            forall d X pre rest,
              siblings d X = pre ++ n :: rest ->
              map (seen d)
                  (filter (picks d)
                          (map (app (X ++ [length pre])) (elements_below n)))
              = map (fun h => Some (prefixed (X ++ [length pre]) h))
                    (hits test n rest)) cs ->
  forall d X pre,
    siblings d X = pre ++ cs ->
    map (seen d)
        (filter (picks d) (map (app X) (numbered elements_below (length pre) cs)))
    = map (fun h => Some (prefixed X h)) (located (hits test) (length pre) cs).
Proof.
  induction 1 as [|c l Hc Hl IH]; intros d X pre Hs; [reflexivity|].
  cbn [numbered located].
  rewrite !map_app, filter_app, !map_app.
  f_equal.
  - rewrite !map_map.
    erewrite (map_ext (fun q => X ++ length pre :: q)
                      (app (X ++ [length pre]))).
    2:{ intros q. now rewrite <- app_assoc. }
    etransitivity; [exact (Hc d X pre l Hs)|].
    apply map_ext. intros h. unfold prefixed. cbn [hit_path hit_node hit_rest fst snd].
    now rewrite <- app_assoc.
  - specialize (IH d X (pre ++ [c])).
    rewrite length_app in IH. cbn [length] in IH. rewrite Nat.add_1_r in IH.
    apply IH. now rewrite <- app_assoc.
Qed.

Lemma hits_at_node (n : node) :
  forall d X pre rest,
    siblings d X = pre ++ n :: rest ->
    map (seen d)
        (filter (picks d) (map (app (X ++ [length pre])) (elements_below n)))
    = map (fun h => Some (prefixed (X ++ [length pre]) h)) (hits test n rest).
Proof.
  induction n as [t|name classes cs IH] using node_induction;
    intros d X pre rest Hs; [reflexivity|].
  assert (En : node_at d (X ++ [length pre]) = Some (Element name classes cs)).
  { rewrite node_at_siblings by discriminate.
    rewrite node_at_single, Hs. apply nth_error_middle. }
  assert (Ec : siblings d (X ++ [length pre]) = [] ++ cs).
  { rewrite siblings_snoc, Hs, nth_error_middle. reflexivity. }
  cbn [elements_below hits map filter].
  rewrite app_nil_r. unfold picks at 1. rewrite En.
  pose proof (@hits_at_list cs IH d (X ++ [length pre]) [] Ec) as Hl.
  cbn [length] in Hl.
  destruct (test (Element name classes cs)).
  - cbn [map app]. f_equal; [|exact Hl].
    unfold seen. rewrite En. unfold prefixed.
    cbn [hit_path hit_node hit_rest fst snd].
    rewrite app_nil_r, later_siblings_snoc, Hs, skipn_middle. reflexivity.
  - exact Hl.
Qed.

Lemma hits_below (d : document) (X : path) (cs : list node) :
  siblings d X = cs ->
  map (seen d) (filter (picks d) (map (app X) (numbered elements_below 0 cs)))
  = map (fun h => Some (prefixed X h)) (located (hits test) 0 cs).
Proof.
  intros Hs. apply (@hits_at_list cs) with (pre := []); [|exact Hs].
  apply Forall_forall. intros n _. apply hits_at_node.
Qed.

(** A selection is the elements that pass the test, in document order. *)
Lemma select_hits (d : document) :
  map (seen d) (select d test) = map Some (all_hits test d).
Proof.
  pose proof (@hits_below d [] d eq_refl) as H.
  rewrite map_id in H. unfold select, elements.
  etransitivity; [exact H|].
  apply map_ext. intros [[q m] r]. reflexivity.
Qed.
End Hits.

Lemma seen_paths (d : document) (sel : selection) (l : list hit) :
  map (seen d) sel = map Some l -> sel = map hit_path l.
Proof.
  revert l; induction sel as [|p sel IH]; intros [|h l] H; try discriminate;
    [reflexivity|].
  cbn [map] in *. inversion H as [[H1 H2]].
  f_equal; [|now apply IH].
  unfold seen in H1. destruct (node_at d p); [|discriminate].
  now inversion H1.
Qed.

Lemma seen_text (d : document) (sel : selection) (l : list hit) :
  map (seen d) sel = map Some l ->
  text d sel = flat_map (fun h => textContent (hit_node h)) l.
Proof.
  revert l; induction sel as [|p sel IH]; intros [|h l] H; try discriminate;
    [reflexivity|].
  cbn [map] in H. inversion H as [[H1 H2]].
  unfold text in *. cbn [flat_map]. rewrite (IH _ H2). f_equal.
  unfold seen in H1. destruct (node_at d p); [|discriminate].
  now inversion H1.
Qed.

Lemma seen_next_text (d : document) (sel : selection) (l : list hit) :
  map (seen d) sel = map Some l ->
  text d (next d sel) = flat_map (fun h => next_text (hit_rest h)) l.
Proof.
  rewrite text_next.
  revert l; induction sel as [|p sel IH]; intros [|h l] H; try discriminate;
    [reflexivity|].
  cbn [map] in H. inversion H as [[H1 H2]].
  cbn [flat_map]. rewrite (IH _ H2). f_equal.
  unfold seen in H1. destruct (node_at d p); [|discriminate].
  now inversion H1.
Qed.

End Paths.

Section Tables.
Import Cheerio.

Lemma located_none (below : node -> list node -> list hit) (a l : list node) :
  (forall n rest, In n a -> below n rest = []) ->
  forall i, located below i (a ++ l) = located below (i + length a) l.
Proof.
  induction a as [|n a IH]; intros H i; cbn [app located length].
  - now rewrite Nat.add_0_r.
  - rewrite (H n (a ++ l)) by now left. cbn [map app].
    rewrite IH by (intros m rest Hm; apply H; now right).
    now rewrite Nat.add_succ_r.
Qed.

Lemma located_all_none (below : node -> list node -> list hit) (a : list node) :
  (forall n rest, In n a -> below n rest = []) ->
  forall i, located below i a = [].
Proof.
  intros H i. rewrite <- (app_nil_r a). now rewrite located_none.
Qed.

Lemma td_only_false (test : node -> bool) (n : node) :
  td_only test -> is_td n = false -> test n = false.
Proof.
  intros Ht Hn. destruct (test n) eqn:E; [|reflexivity].
  rewrite (Ht _ E) in Hn. discriminate Hn.
Qed.

Lemma hits_plain (test : node -> bool) (n : node) :
  td_only test -> has_td n = false -> forall rest, hits test n rest = [].
Proof.
  intros Ht. induction n as [t|name classes cs IH] using node_induction;
    intros Hn rest; [reflexivity|].
  cbn [has_td] in Hn. apply orb_false_iff in Hn as [Hname Hcs].
  cbn [hits]. rewrite (td_only_false _ Ht) by exact Hname. cbn [app].
  apply located_all_none. intros c r Hc.
  rewrite Forall_forall in IH. apply (IH c Hc).
  destruct (has_td c) eqn:E; [|reflexivity].
  assert (X : existsb has_td cs = true)
    by (apply existsb_exists; now exists c).
  rewrite X in Hcs. discriminate Hcs.
Qed.

Lemma located_plain (test : node -> bool) (a l : list node) (i : nat) :
  td_only test -> existsb has_td a = false ->
  located (hits test) i (a ++ l) = located (hits test) (i + length a) l.
Proof.
  intros Ht Ha. apply located_none. intros n rest Hn.
  apply hits_plain; [exact Ht|].
  destruct (has_td n) eqn:E; [|reflexivity].
  assert (X : existsb has_td a = true)
    by (apply existsb_exists; now exists n).
  rewrite X in Ha. discriminate Ha.
Qed.

Lemma prefixed_prefixed (X Y : path) (l : list hit) :
  map (prefixed X) (map (prefixed Y) l) = map (prefixed (X ++ Y)) l.
Proof.
  rewrite map_map. apply map_ext. intros [[q m] r].
  unfold prefixed. cbn [hit_path hit_node hit_rest fst snd].
  now rewrite app_assoc.
Qed.

Lemma prefixed_nil (l : list hit) : map (prefixed []) l = l.
Proof.
  rewrite <- (map_id l) at 2. apply map_ext. now intros [[q m] r].
Qed.

(** The elements that pass a test for cells are found in the table body. *)
Lemma all_hits_plug (test : node -> bool) (ctx : list frame) (inner : list node) :
  td_only test -> forallb plain_frame ctx = true ->
  all_hits test (plug ctx inner) = map (prefixed (base ctx)) (all_hits test inner).
Proof.
  intros Ht. unfold all_hits.
  induction ctx as [|f ctx IH]; intros Hc; cbn [plug base map].
  - now rewrite prefixed_nil.
  - cbn [forallb] in Hc. apply andb_true_iff in Hc as [Hf Hc].
    unfold plain_frame in Hf.
    apply andb_true_iff in Hf as [Hf Hafter].
    apply andb_true_iff in Hf as [Htag Hbefore].
    apply negb_true_iff in Htag, Hbefore, Hafter.
    rewrite located_plain by assumption.
    cbn [located Nat.add].
    rewrite (@located_all_none (hits test) (frame_after f)).
    2:{ intros n rest Hn. apply hits_plain; [exact Ht|].
        destruct (has_td n) eqn:E; [|reflexivity].
        assert (X : existsb has_td (frame_after f) = true)
          by (apply existsb_exists; now exists n).
        rewrite X in Hafter. discriminate Hafter. }
    rewrite app_nil_r. cbn [hits].
    rewrite (td_only_false _ Ht) by exact Htag. cbn [app].
    rewrite (IH Hc). apply prefixed_prefixed.
Qed.

Lemma siblings_cons (d : document) (k : nat) (up : path) :
  siblings d (k :: up) =
  match nth_error d k with
  | Some n => siblings (children_of n) up
  | None => []
  end.
Proof.
  destruct up as [|j up].
  - unfold siblings at 1. rewrite node_at_single.
    now destruct (nth_error d k).
  - unfold siblings. rewrite node_at_cons by discriminate.
    now destruct (nth_error d k).
Qed.

Lemma siblings_plug (ctx : list frame) (inner : list node) :
  siblings (plug ctx inner) (base ctx) = inner.
Proof.
  induction ctx as [|f ctx IH]; [reflexivity|].
  cbn [plug base map]. rewrite siblings_cons, nth_error_middle.
  exact IH.
Qed.

Lemma located_gap (A : Type) (f : A -> node) (test : node -> bool)
      (t : jsstring) (ns : list node) (j : nat) :
  located (hits test) j (piece_node f (Gap t) :: ns)
  = located (hits test) (S j) ns.
Proof. reflexivity. Qed.

Lemma located_cell (test : node -> bool) (c : cell) (ns : list node) (j : nat) :
  td_only test -> plain_cell c = true ->
  located (hits test) j (piece_node cell_node (Item c) :: ns)
  = (if test (cell_node c) then [([j], cell_node c, ns)] else [])
      ++ located (hits test) (S j) ns.
Proof.
  intros Ht Hc. cbn [located piece_node]. f_equal.
  unfold cell_node at 1. cbn [hits].
  rewrite (@located_all_none (hits test) (cell_content c)).
  2:{ intros n rest Hn. apply hits_plain; [exact Ht|].
      unfold plain_cell in Hc. apply negb_true_iff in Hc.
      destruct (has_td n) eqn:E; [|reflexivity].
      assert (X : existsb has_td (cell_content c) = true)
        by (apply existsb_exists; now exists n).
      rewrite X in Hc. discriminate Hc. }
  rewrite app_nil_r.
  fold (cell_node c). now destruct (test (cell_node c)).
Qed.

Lemma located_row (test : node -> bool) (r : row) (ns : list node) (i : nat) :
  td_only test ->
  located (hits test) i (piece_node row_node (Item r) :: ns)
  = map (prefixed [i])
        (located (hits test) 0 (map (piece_node cell_node) r))
      ++ located (hits test) (S i) ns.
Proof.
  intros Ht. cbn [located piece_node]. f_equal. f_equal.
  unfold row_node. cbn [hits].
  now rewrite (td_only_false _ Ht) by reflexivity.
Qed.

Lemma items_cons_gap (A : Type) (t : jsstring) (ps : list (piece A)) :
  items (Gap t :: ps) = items ps.
Proof. reflexivity. Qed.

Lemma items_cons_item (A : Type) (a : A) (ps : list (piece A)) :
  items (Item a :: ps) = a :: items ps.
Proof. reflexivity. Qed.

Lemma items_app (A : Type) (ps qs : list (piece A)) :
  items (ps ++ qs) = items ps ++ items qs.
Proof. unfold items. apply flat_map_app. Qed.

Lemma text_of_cell (c : cell) : textContent (cell_node c) = cell_text c.
Proof. reflexivity. Qed.

Lemma label_of_cell (label : jsstring) (c : cell) :
  holds_label label (cell_node c) = includes (cell_label c) label.
Proof. reflexivity. Qed.

Lemma next_text_row (r : row) :
  next_text (map (piece_node cell_node) r) =
  match items r with
  | v :: _ => cell_text v
  | [] => []
  end.
Proof.
  induction r as [|[t|c] r IH]; [reflexivity| |reflexivity].
  rewrite items_cons_gap, <- IH. reflexivity.
Qed.

Lemma td_only_label (label : jsstring) : td_only (holds_label label).
Proof. intros n H. unfold holds_label in H. now apply andb_true_iff in H as [H _]. Qed.

Lemma td_only_class (c : string) : td_only (holds_class c).
Proof. intros n H. unfold holds_class in H. now apply andb_true_iff in H as [H _]. Qed.

Lemma td_only_td : td_only is_td.
Proof. intros n H. exact H. Qed.

Lemma rest_text_prefixed (X : path) (l : list hit) :
  flat_map rest_text (map (prefixed X) l) = flat_map rest_text l.
Proof.
  induction l as [|h l IH]; [reflexivity|].
  cbn [map flat_map]. now rewrite IH.
Qed.

Lemma row_values_hits (label : jsstring) (r : row) :
  forallb plain_cell (items r) = true ->
  forall j,
    flat_map rest_text
             (located (hits (holds_label label)) j (map (piece_node cell_node) r))
    = row_values label (items r).
Proof.
  induction r as [|[t|c] r IH]; intros Hp j; [reflexivity| |].
  - cbn [map]. rewrite located_gap, items_cons_gap. now apply IH.
  - rewrite items_cons_item in *. cbn [forallb] in Hp.
    apply andb_true_iff in Hp as [Hc Hr].
    cbn [map]. rewrite located_cell by (apply td_only_label || exact Hc).
    rewrite flat_map_app, (IH Hr). cbn [row_values]. f_equal.
    rewrite label_of_cell.
    destruct (includes (cell_label c) label); [|reflexivity].
    cbn [flat_map]. unfold rest_text at 1. cbn [hit_rest snd].
    now rewrite next_text_row, app_nil_r.
Qed.

Lemma body_values_hits (label : jsstring) (b : table_body) :
  forallb (fun r => forallb plain_cell (items r)) (items b) = true ->
  forall i,
    flat_map rest_text (located (hits (holds_label label)) i (body_nodes b))
    = labelled_value label b.
Proof.
  unfold labelled_value, grid, body_nodes.
  induction b as [|[t|r] b IH]; intros Hp i; [reflexivity| |].
  - cbn [map]. rewrite located_gap, items_cons_gap. now apply IH.
  - rewrite items_cons_item in *. cbn [forallb] in Hp.
    apply andb_true_iff in Hp as [Hr Hb].
    cbn [map]. rewrite located_row by apply td_only_label.
    rewrite flat_map_app, rest_text_prefixed, (IH Hb).
    cbn [flat_map]. f_equal. now apply row_values_hits.
Qed.

(** A field read by its label, on a receipt page. *)
Lemma cell_after_page (ctx : list frame) (b : table_body) (label : jsstring) :
  plain ctx b = true ->
  cell_after (table_page ctx b) label = trim (labelled_value label b).
Proof.
  intros Hp. unfold plain in Hp. apply andb_true_iff in Hp as [Hc Hb].
  unfold cell_after, td_contains. f_equal.
  rewrite (@seen_next_text _ _ _ (select_hits (holds_label label) (table_page ctx b))).
  unfold table_page.
  rewrite all_hits_plug by (apply td_only_label || exact Hc).
  change (fun h : hit => next_text (hit_rest h)) with rest_text.
  rewrite rest_text_prefixed. now apply body_values_hits.
Qed.

End Tables.

Section MarkedCells.
Import Cheerio.

Lemma class_of_cell (c : cell) : marker (cell_node c) = is_marked c.
Proof. reflexivity. Qed.

Lemma first_eq_0 (sel : selection) : first sel = eq_ 0 sel.
Proof. now destruct sel. Qed.

Lemma seen_nth (d : document) (sel : selection) (l : list hit) (n : nat) :
  map (seen d) sel = map Some l ->
  text d (eq_ n sel) =
  match nth_error l n with
  | Some h => textContent (hit_node h)
  | None => []
  end.
Proof.
  intros H. unfold eq_.
  assert (E : option_map (seen d) (nth_error sel n) = option_map Some (nth_error l n)).
  { now rewrite <- !nth_error_map, H. }
  destruct (nth_error sel n) as [p|], (nth_error l n) as [h|];
    try discriminate; [|reflexivity].
  cbn [option_map] in E. inversion E as [E1].
  unfold text. cbn [flat_map]. rewrite app_nil_r.
  unfold seen in E1. destruct (node_at d p); [|discriminate].
  now inversion E1.
Qed.

Lemma located_td_row (r : row) :
  forallb plain_cell (items r) = true ->
  forall j,
    map hit_node (located (hits is_td) j (map (piece_node cell_node) r))
    = map cell_node (items r).
Proof.
  induction r as [|[t|c] r IH]; intros Hp j; [reflexivity| |].
  - cbn [map]. rewrite located_gap, items_cons_gap. now apply IH.
  - rewrite items_cons_item in *. cbn [forallb] in Hp.
    apply andb_true_iff in Hp as [Hc Hr].
    cbn [map]. rewrite located_cell by (apply td_only_td || exact Hc).
    cbn [is_td cell_node String.eqb Ascii.eqb Bool.eqb app map hit_node fst snd].
    f_equal. now apply IH.
Qed.

Lemma hit_node_prefixed (X : path) (l : list hit) :
  map hit_node (map (prefixed X) l) = map hit_node l.
Proof. rewrite map_map. apply map_ext. now intros [[q m] r]. Qed.

(** The cells of a row, as [.find('td')] lists them. *)
Lemma row_cell_text (d : document) (p : path) (r : row) (n : nat) :
  p <> [] ->
  node_at d p = Some (row_node r) ->
  forallb plain_cell (items r) = true ->
  text d (eq_ n (find_td d [p])) = nth_cell_text n [items r].
Proof.
  intros Hp Hn Hr.
  assert (Es : siblings d p = map (piece_node cell_node) r).
  { unfold siblings. rewrite Hn. now destruct p. }
  pose proof (@hits_below is_td d p _ Es) as H.
  assert (Ef : find_td d [p]
               = filter (fun q => match node_at d q with
                                  | Some m => is_td m
                                  | None => false
                                  end)
                        (map (app p)
                             (numbered elements_below 0
                                       (map (piece_node cell_node) r)))).
  { unfold find_td. cbn [flat_map]. rewrite Hn, app_nil_r. reflexivity. }
  rewrite Ef.
  rewrite (@seen_nth d _ (map (prefixed p)
                              (located (hits is_td) 0
                                       (map (piece_node cell_node) r))) n).
  2:{ etransitivity; [exact H|]. now rewrite map_map. }
  assert (En : option_map hit_node
                 (nth_error (map (prefixed p)
                                 (located (hits is_td) 0
                                          (map (piece_node cell_node) r))) n)
               = option_map cell_node (nth_error (items r) n)).
  { rewrite <- !nth_error_map, hit_node_prefixed. now rewrite located_td_row. }
  unfold nth_cell_text.
  destruct (nth_error (map (prefixed p) _) n) as [h|],
           (nth_error (items r) n) as [c|]; try discriminate; [|reflexivity].
  cbn [option_map] in En. inversion En as [E1]. now rewrite E1.
Qed.

Lemma first_row (b : table_body) :
  forall i,
    (items b = [] /\ first_element i (body_nodes b) = None)
    \/ exists g r b',
        b = g ++ Item r :: b' /\ items g = []
        /\ first_element i (body_nodes b) = Some (i + length g)%nat.
Proof.
  induction b as [|[t|r] b IH]; intros i; [now left| |].
  - destruct (IH (S i)) as [[H1 H2]|(g & r & b' & H1 & H2 & H3)].
    + left. now split.
    + right. exists (Gap t :: g), r, b'. subst b.
      repeat split; [exact H2|].
      cbn [body_nodes map piece_node first_element is_element length].
      unfold body_nodes in H3. rewrite H3. f_equal. lia.
  - right. exists [], r, b. repeat split.
    cbn [length]. now rewrite Nat.add_0_r.
Qed.

Lemma first_cell (r : row) :
  forall i,
    (items r = [] /\ first_element i (map (piece_node cell_node) r) = None)
    \/ exists j c cs,
        items r = c :: cs
        /\ first_element i (map (piece_node cell_node) r) = Some j.
Proof.
  induction r as [|[t|c] r IH]; intros i; [now left| |].
  - destruct (IH (S i)) as [[H1 H2]|(j & c & cs & H1 & H2)].
    + left. now split.
    + right. now exists j, c, cs.
  - right. now exists i, c, (items r).
Qed.

Lemma next_single (d : document) (p : path) : next d [p] = next_sibling d p.
Proof. unfold next. cbn [flat_map]. apply app_nil_r. Qed.

Lemma parent_of_child (up : path) (j : nat) :
  up <> [] -> parent [up ++ [j]] = [up].
Proof.
  intros Hup. unfold parent. cbn [flat_map]. rewrite removelast_last, app_nil_r.
  now destruct up.
Qed.

Lemma body_nodes_app (b1 b2 : table_body) :
  body_nodes (b1 ++ b2) = body_nodes b1 ++ body_nodes b2.
Proof. apply map_app. Qed.

Lemma body_nodes_length (b : table_body) : length (body_nodes b) = length b.
Proof. apply length_map. Qed.

Lemma grid_app (b1 b2 : table_body) : grid (b1 ++ b2) = grid b1 ++ grid b2.
Proof. unfold grid. now rewrite items_app, map_app. Qed.

Lemma grid_gaps (g : table_body) : items g = [] -> grid g = [].
Proof. unfold grid. now intros ->. Qed.

Section OnePage.
Variable ctx : list frame.
Variable b1 b2 : table_body.
Variable r : row.
Hypothesis plain_ctx : forallb plain_frame ctx = true.
Hypothesis plain_rows :
  forallb (fun r => forallb plain_cell (items r)) (items (b1 ++ Item r :: b2)) = true.

Let d : document := table_page ctx (b1 ++ Item r :: b2).
Let B : path := base ctx.
Let k : nat := length b1.

Lemma body_of_page : siblings d B = body_nodes (b1 ++ Item r :: b2).
Proof. apply siblings_plug. Qed.

Lemma rows_below : skipn (S k) (siblings d B) = body_nodes b2.
Proof.
  rewrite body_of_page, body_nodes_app.
  unfold k. rewrite <- (body_nodes_length b1).
  apply skipn_middle.
Qed.

Lemma row_at : nth_error (siblings d B) k = Some (row_node r).
Proof.
  rewrite body_of_page, body_nodes_app.
  unfold k. rewrite <- (body_nodes_length b1).
  apply nth_error_middle.
Qed.

Lemma plain_below :
  forallb (fun r => forallb plain_cell (items r)) (items b2) = true.
Proof.
  pose proof plain_rows as H.
  rewrite items_app, forallb_app in H. apply andb_true_iff in H as [_ H].
  rewrite items_cons_item in H. cbn [forallb] in H.
  now apply andb_true_iff in H as [_ H].
Qed.

(** The cells of the row below row [k]. *)
Lemma cells_below (n : nat) :
  text d (eq_ n (find_td d (next d [B ++ [k]]))) = nth_cell_text n (grid b2).
Proof.
  unfold next. cbn [flat_map]. rewrite app_nil_r, next_sibling_snoc, rows_below.
  destruct (first_row b2 (S k)) as [[H1 H2]|(g & r' & b' & H1 & H2 & H3)].
  - rewrite H2. unfold grid. rewrite H1.
    unfold find_td, eq_. cbn [flat_map]. now destruct n.
  - rewrite H3.
    assert (Hn : node_at d (B ++ [(S k + length g)%nat]) = Some (row_node r')).
    { rewrite node_at_siblings by discriminate.
      rewrite node_at_single, <- nth_error_skipn_add, rows_below, H1.
      rewrite body_nodes_app, <- (body_nodes_length g).
      apply nth_error_middle. }
    assert (Hr : forallb plain_cell (items r') = true).
    { pose proof plain_below as H. rewrite H1, items_app, forallb_app in H.
      apply andb_true_iff in H as [_ H].
      rewrite items_cons_item in H. cbn [forallb] in H.
      now apply andb_true_iff in H as [H _]. }
    rewrite (@row_cell_text d _ r' n); [| |exact Hn|exact Hr].
    + rewrite H1, grid_app, (grid_gaps _ H2). reflexivity.
    + now destruct B.
Qed.

End OnePage.

Lemma located_unmarked_row (r : row) :
  forallb plain_cell (items r) = true ->
  forallb (fun c => negb (is_marked c)) (items r) = true ->
  forall j, located (hits marker) j (map (piece_node cell_node) r) = [].
Proof.
  induction r as [|[t|c] r IH]; intros Hp Hu j; [reflexivity| |].
  - cbn [map]. rewrite located_gap. now apply IH.
  - rewrite items_cons_item in *. cbn [forallb] in Hp, Hu.
    apply andb_true_iff in Hp as [Hc Hr].
    apply andb_true_iff in Hu as [Hm Hu].
    cbn [map]. rewrite located_cell by (apply td_only_class || exact Hc).
    rewrite class_of_cell. apply negb_true_iff in Hm. rewrite Hm.
    now apply IH.
Qed.

Lemma located_marked_row (r1 r2 : row) (c : cell) :
  forallb plain_cell (items (r1 ++ Item c :: r2)) = true ->
  forallb (fun c => negb (is_marked c)) (items r1) = true ->
  is_marked c = true ->
  forall j,
    exists more,
      located (hits marker) j (map (piece_node cell_node) (r1 ++ Item c :: r2))
      = ([(j + length r1)%nat], cell_node c, map (piece_node cell_node) r2) :: more.
Proof.
  induction r1 as [|[t|c1] r1 IH]; intros Hp Hu Hm j.
  - cbn [app] in Hp. rewrite items_cons_item in Hp. cbn [forallb] in Hp.
    apply andb_true_iff in Hp as [Hc _].
    cbn [app map length].
    rewrite located_cell by (apply td_only_class || exact Hc).
    rewrite class_of_cell, Hm, Nat.add_0_r. eexists. reflexivity.
  - cbn [app map]. rewrite located_gap.
    destruct (IH Hp Hu Hm (S j)) as [more E].
    exists more. rewrite E. cbn [length]. now rewrite Nat.add_succ_r.
  - cbn [app] in Hp. rewrite items_cons_item in *. cbn [forallb] in Hp, Hu.
    apply andb_true_iff in Hp as [Hc Hp].
    apply andb_true_iff in Hu as [Hm1 Hu].
    cbn [app map]. rewrite located_cell by (apply td_only_class || exact Hc).
    rewrite class_of_cell. apply negb_true_iff in Hm1. rewrite Hm1.
    destruct (IH Hp Hu Hm (S j)) as [more E].
    exists more. cbn [app]. rewrite E. cbn [length]. now rewrite Nat.add_succ_r.
Qed.

Lemma located_unmarked_body (b : table_body) :
  forallb (fun r => forallb plain_cell (items r)) (items b) = true ->
  unmarked (grid b) = true ->
  forall i, located (hits marker) i (body_nodes b) = [].
Proof.
  unfold unmarked, grid, body_nodes.
  induction b as [|[t|r] b IH]; intros Hp Hu i; [reflexivity| |].
  - cbn [map]. rewrite located_gap. now apply IH.
  - rewrite items_cons_item in *. cbn [map forallb] in Hp, Hu.
    apply andb_true_iff in Hp as [Hr Hp].
    apply andb_true_iff in Hu as [Hm Hu].
    cbn [map]. rewrite located_row by apply td_only_class.
    rewrite (located_unmarked_row _ Hr Hm). cbn [map app].
    now apply IH.
Qed.

Lemma located_marked_body (b1 b2 : table_body) (r1 r2 : row) (c : cell) :
  forallb (fun r => forallb plain_cell (items r))
          (items (b1 ++ Item (r1 ++ Item c :: r2) :: b2)) = true ->
  unmarked (grid b1) = true ->
  forallb (fun c => negb (is_marked c)) (items r1) = true ->
  is_marked c = true ->
  forall i,
    exists more,
      located (hits marker) i (body_nodes (b1 ++ Item (r1 ++ Item c :: r2) :: b2))
      = ([(i + length b1)%nat; length r1], cell_node c,
         map (piece_node cell_node) r2) :: more.
Proof.
  unfold unmarked, grid, body_nodes.
  induction b1 as [|[t|r] b1 IH]; intros Hp Hu Hu1 Hm i.
  - cbn [app] in *. rewrite items_cons_item in Hp. cbn [forallb] in Hp.
    apply andb_true_iff in Hp as [Hr _].
    cbn [map]. rewrite located_row by apply td_only_class.
    destruct (located_marked_row r1 r2 c Hr Hu1 Hm 0) as [more E].
    rewrite E. cbn [map app length]. rewrite Nat.add_0_r.
    eexists. reflexivity.
  - cbn [app map]. rewrite located_gap.
    destruct (IH Hp Hu Hu1 Hm (S i)) as [more E].
    exists more. rewrite E. cbn [length]. now rewrite Nat.add_succ_r.
  - cbn [app] in Hp. rewrite items_cons_item in *. cbn [map forallb] in Hp, Hu.
    apply andb_true_iff in Hp as [Hr Hp].
    apply andb_true_iff in Hu as [Hmr Hu].
    cbn [app map]. rewrite located_row by apply td_only_class.
    rewrite (located_unmarked_row _ Hr Hmr). cbn [map app].
    destruct (IH Hp Hu Hu1 Hm (S i)) as [more E].
    exists more. rewrite E. cbn [length]. now rewrite Nat.add_succ_r.
Qed.

Lemma row_cases (r : row) :
  (forallb (fun c => negb (is_marked c)) (items r) = true
   /\ right_of_marked (items r) = None)
  \/ exists r1 c r2,
      r = r1 ++ Item c :: r2
      /\ forallb (fun c => negb (is_marked c)) (items r1) = true
      /\ is_marked c = true
      /\ right_of_marked (items r) = Some (items r2).
Proof.
  induction r as [|[t|c] r IH]; [now left| |].
  - destruct IH as [[H1 H2]|(r1 & c & r2 & -> & H2 & H3 & H4)].
    + left. now split.
    + right. now exists (Gap t :: r1), c, r2.
  - rewrite items_cons_item. cbn [forallb right_of_marked].
    destruct (is_marked c) eqn:Hc.
    + right. now exists [], c, r.
    + destruct IH as [[H1 H2]|(r1 & c' & r2 & -> & H2 & H3 & H4)].
      * left. now split.
      * right. exists (Item c :: r1), c', r2.
        rewrite items_cons_item. cbn [forallb]. rewrite Hc. now repeat split.
Qed.

Lemma marked_cases (b : table_body) :
  (unmarked (grid b) = true /\ below_marked (grid b) = None)
  \/ exists b1 r1 c r2 b2,
      b = b1 ++ Item (r1 ++ Item c :: r2) :: b2
      /\ unmarked (grid b1) = true
      /\ forallb (fun c => negb (is_marked c)) (items r1) = true
      /\ is_marked c = true
      /\ below_marked (grid b) = Some (items r2, grid b2).
Proof.
  unfold unmarked, grid.
  induction b as [|[t|r] b IH]; [now left| |].
  - destruct IH as [[H1 H2]|(b1 & r1 & c & r2 & b2 & -> & H2 & H3 & H4 & H5)].
    + left. now split.
    + right. now exists (Gap t :: b1), r1, c, r2, b2.
  - rewrite items_cons_item. cbn [map forallb below_marked].
    destruct (row_cases r) as [[R1 R2]|(r1 & c & r2 & -> & R2 & R3 & R4)].
    + rewrite R1, R2.
      destruct IH as [[H1 H2]|(b1 & r1 & c & r2 & b2 & -> & H2 & H3 & H4 & H5)].
      * left. now split.
      * right. exists (Item r :: b1), r1, c, r2, b2.
        rewrite items_cons_item. cbn [map forallb]. rewrite R1.
        now repeat split.
    + right. exists [], r1, c, r2, b. rewrite R4. now repeat split.
Qed.

Lemma select_none (d : document) (test : node -> bool) :
  all_hits test d = [] -> select d test = [].
Proof.
  intros H. pose proof (select_hits test d) as E. rewrite H in E.
  now destruct (select d test).
Qed.

(** Lines 101-104 on a receipt page. *)
Lemma marked_cells_page (ctx : list frame) (b : table_body) :
  plain ctx b = true ->
  receipt_number (table_page ctx b) = trim (receipt_number_of b)
  /\ payment_date (table_page ctx b) = trim (payment_date_of b).
Proof.
  intros Hp. unfold plain in Hp. apply andb_true_iff in Hp as [Hc Hb].
  unfold receipt_number, payment_date, receipt_number_of, payment_date_of,
    td_with_class.
  fold marker.
  destruct (marked_cases b)
    as [[H1 H2]|(b1 & r1 & c & r2 & b2 & -> & H2 & H3 & H4 & H5)].
  - rewrite H2, select_none; [now split|].
    unfold table_page. rewrite all_hits_plug by (apply td_only_class || exact Hc).
    unfold all_hits. now rewrite located_unmarked_body.
  - rewrite H5.
    destruct (located_marked_body b1 b2 r1 r2 c Hb H2 H3 H4 0) as [more E].
    pose proof (select_hits marker
                  (table_page ctx (b1 ++ Item (r1 ++ Item c :: r2) :: b2))) as Hs.
    unfold table_page in Hs at 3.
    rewrite all_hits_plug in Hs by (apply td_only_class || exact Hc).
    unfold all_hits in Hs. unfold table_body, row in *. rewrite E in Hs.
    cbn [map Nat.add] in Hs.
    destruct (select _ marker) as [|p sel] eqn:Esel; [discriminate Hs|].
    cbn [map] in Hs.
    assert (Hp0 : seen (table_page ctx (b1 ++ Item (r1 ++ Item c :: r2) :: b2)) p
                  = Some (prefixed (base ctx)
                                   ([length b1; length r1], cell_node c,
                                    map (piece_node cell_node) r2)))
      by (now inversion Hs).
    clear Hs. unfold seen in Hp0.
    destruct (node_at _ p) as [m|]; [|discriminate Hp0].
    unfold prefixed in Hp0. cbn [hit_path hit_node hit_rest fst snd] in Hp0.
    assert (Ep : p = (base ctx ++ [length b1]) ++ [length r1])
      by (rewrite <- app_assoc; cbn [app]; congruence).
    assert (Er : later_siblings
                   (table_page ctx (b1 ++ Item (r1 ++ Item c :: r2) :: b2)) p
                 = map (piece_node cell_node) r2) by congruence.
    clear Hp0. subst p.
    assert (Ne : base ctx ++ [length b1] <> []) by (now destruct (base ctx)).
    change (first (((base ctx ++ [length b1]) ++ [length r1]) :: sel))
      with [(base ctx ++ [length b1]) ++ [length r1]].
    rewrite first_eq_0, parent_of_child by exact Ne.
    split.
    + f_equal. exact (@cells_below ctx b1 b2 (r1 ++ Item c :: r2) Hb 0).
    + rewrite next_single, next_sibling_snoc, <- later_siblings_snoc, Er.
      destruct (first_cell r2 (S (length r1)))
        as [[F1 F2]|(j & c' & cs & F1 & F2)].
      * rewrite F1, F2. reflexivity.
      * rewrite F1, F2. rewrite parent_of_child by exact Ne.
        f_equal. exact (@cells_below ctx b1 b2 (r1 ++ Item c :: r2) Hb 1).
Qed.

End MarkedCells.

Section Readings.
Import Cheerio.

Lemma row_values_skip (label : jsstring) (left cs : list cell) :
  forallb (fun c => negb (includes (cell_label c) label)) left = true ->
  row_values label (left ++ cs) = row_values label cs.
Proof.
  induction left as [|c left IH]; [reflexivity|].
  cbn [forallb app row_values]. intros H. apply andb_true_iff in H as [Hc Hl].
  apply negb_true_iff in Hc. rewrite Hc. now apply IH.
Qed.

Lemma row_values_none (label : jsstring) (cs : list cell) :
  forallb (fun c => negb (includes (cell_label c) label)) cs = true ->
  row_values label cs = [].
Proof.
  intros H. rewrite <- (app_nil_r cs). now rewrite row_values_skip.
Qed.

Lemma rows_values_none (label : jsstring) (rows : list (list cell)) :
  unlabelled label rows = true -> flat_map (row_values label) rows = [].
Proof.
  unfold unlabelled. induction rows as [|r rows IH]; [reflexivity|].
  cbn [forallb flat_map]. intros H. apply andb_true_iff in H as [Hr Hrows].
  now rewrite (row_values_none _ _ Hr), IH.
Qed.


(** A label that one cell only has reads as the text of the cell right
    after that cell. *)
Lemma labelled_value_one (label : jsstring) (b : table_body)
      (above below : list (list cell)) (left others : list cell) (c v : cell) :
  grid b = above ++ (left ++ c :: v :: others) :: below ->
  includes (cell_label c) label = true ->
  unlabelled label (above ++ left :: (v :: others) :: below) = true ->
  labelled_value label b = cell_text v.
Proof.
  intros Hg Hc Hu. unfold labelled_value. rewrite Hg.
  unfold unlabelled in Hu. rewrite forallb_app in Hu.
  apply andb_true_iff in Hu as [Ha Hu]. cbn [forallb] in Hu.
  apply andb_true_iff in Hu as [Hl Hu].
  apply andb_true_iff in Hu as [Hv Hb].
  rewrite flat_map_app. cbn [flat_map].
  rewrite (rows_values_none _ _ Ha), (rows_values_none _ _ Hb).
  rewrite (row_values_skip _ _ _ Hl). cbn [row_values app].
  rewrite Hc.
  change (row_values label (v :: others)) with (row_values label (v :: others)).
  assert (Ev : row_values label (v :: others) = [])
    by (apply row_values_none; exact Hv).
  cbn [row_values] in Ev. rewrite Ev. now rewrite !app_nil_r.
Qed.

Lemma right_of_unmarked (cs : list cell) :
  forallb (fun c => negb (is_marked c)) cs = true -> right_of_marked cs = None.
Proof.
  induction cs as [|c cs IH]; [reflexivity|].
  cbn [forallb right_of_marked]. intros H. apply andb_true_iff in H as [Hc Hcs].
  apply negb_true_iff in Hc. rewrite Hc. now apply IH.
Qed.

Lemma right_of_first_marked (left others : list cell) (m : cell) :
  forallb (fun c => negb (is_marked c)) left = true ->
  is_marked m = true ->
  right_of_marked (left ++ m :: others) = Some others.
Proof.
  induction left as [|c left IH]; cbn [forallb app right_of_marked]; intros H Hm.
  - now rewrite Hm.
  - apply andb_true_iff in H as [Hc Hl]. apply negb_true_iff in Hc.
    rewrite Hc. now apply IH.
Qed.

Lemma below_unmarked (rows : list (list cell)) :
  unmarked rows = true -> below_marked rows = None.
Proof.
  unfold unmarked. induction rows as [|r rows IH]; [reflexivity|].
  cbn [forallb below_marked]. intros H. apply andb_true_iff in H as [Hr Hrows].
  now rewrite (right_of_unmarked _ Hr), IH.
Qed.

Lemma below_first_marked (above below : list (list cell))
      (left others : list cell) (m : cell) :
  unmarked above = true ->
  forallb (fun c => negb (is_marked c)) left = true ->
  is_marked m = true ->
  below_marked (above ++ (left ++ m :: others) :: below) = Some (others, below).
Proof.
  unfold unmarked. intros Ha Hl Hm.
  induction above as [|r above IH]; cbn [app below_marked].
  - now rewrite right_of_first_marked.
  - cbn [forallb] in Ha. apply andb_true_iff in Ha as [Hr Ha].
    rewrite (right_of_unmarked _ Hr). now apply IH.
Qed.

(** Without a marked cell the two fields read as the empty text; with one,
    as the first two cells of the row below the first marked cell. *)
Lemma marked_values_none (b : table_body) :
  unmarked (grid b) = true ->
  receipt_number_of b = [] /\ payment_date_of b = [].
Proof.
  intros H. unfold receipt_number_of, payment_date_of.
  now rewrite (below_unmarked _ H).
Qed.

Lemma marked_values_one (b : table_body) (above below : list (list cell))
      (left headers values : list cell) (m h number date : cell) :
  grid b = above ++ (left ++ m :: h :: headers)
                 :: (number :: date :: values) :: below ->
  unmarked above = true ->
  forallb (fun c => negb (is_marked c)) left = true ->
  is_marked m = true ->
  receipt_number_of b = cell_text number /\ payment_date_of b = cell_text date.
Proof.
  intros Hg Ha Hl Hm. unfold receipt_number_of, payment_date_of.
  rewrite Hg, (below_first_marked _ _ _ _ _ Ha Hl Hm). now split.
Qed.

End Readings.

Section TelebirrCells.
Variable axios_get : jsstring -> outcome jsvalue.
Variable type_error : jsvalue -> jsstring.
Variable cheerio_load : jsvalue -> outcome Cheerio.document.


End TelebirrCells.


(** ** The handler and the audit log *)

Section HandlerProperties.
Variable Buffer : Type.
Variable axios_get_arraybuffer : jsstring -> outcome Buffer.
Variable pdfParse : Buffer -> outcome jsstring.
Variable axios_get : jsstring -> outcome jsvalue.
Variable type_error : jsvalue -> jsstring.
Variable cheerio_load : jsvalue -> outcome Cheerio.document.
Variable now : Z.

Let resolve := resolve axios_get_arraybuffer pdfParse axios_get type_error cheerio_load.
Let handler :=
  handler axios_get_arraybuffer pdfParse axios_get type_error cheerio_load now.

(** The ways a lookup fails: the fetch, the decoding of the PDF, the
    sentinel page, the parsing of the page, a response that is not a
    page. *)
Lemma resolve_failures (transactionId : jsstring) :
  (forall message,
      startsWith transactionId (js "FT") = true ->
      axios_get_arraybuffer (cbe_link transactionId) = Throw message ->
      resolve transactionId = Throw message)
  /\ (forall buffer message,
      startsWith transactionId (js "FT") = true ->
      axios_get_arraybuffer (cbe_link transactionId) = Ok buffer ->
      pdfParse buffer = Throw message ->
      resolve transactionId = Throw message)
  /\ (forall message,
      startsWith transactionId (js "FT") = false ->
      axios_get (telebirr_link transactionId) = Throw message ->
      resolve transactionId = Throw message)
  /\ (forall html,
      startsWith transactionId (js "FT") = false ->
      axios_get (telebirr_link transactionId) = Ok (VString html) ->
      includes html sentinel = true ->
      resolve transactionId = Throw (js "Invalid Telebirr transaction ID"))
  /\ (forall html message,
      startsWith transactionId (js "FT") = false ->
      axios_get (telebirr_link transactionId) = Ok (VString html) ->
      includes html sentinel = false ->
      cheerio_load (VString html) = Throw message ->
      resolve transactionId = Throw message)
  /\ (forall body,
      startsWith transactionId (js "FT") = false ->
      axios_get (telebirr_link transactionId) = Ok body ->
      has_includes body = false ->
      resolve transactionId = Throw (type_error body)).
Proof.
  unfold resolve, Server.resolve, parseFT, parseTelebirr, bind.
  repeat split; intros.
  - now rewrite H, H0.
  - now rewrite H, H0, H1.
  - now rewrite H, H0.
  - rewrite H, H0. cbn [includes_sentinel]. now rewrite H1.
  - rewrite H, H0. cbn [includes_sentinel]. now rewrite H1, H2.
  - rewrite H, H0. destruct body; cbn in H1; try discriminate H1; reflexivity.
Qed.

Lemma append_changes (A : Type) (l : list A) (x : A) : l ++ [x] <> l.
Proof.
  intros E. apply (f_equal (@length A)) in E.
  rewrite length_app in E. simpl in E. lia.
Qed.

(** C8: a lookup that fails is answered with status 500 and the body
    [{error: "Failed to process transaction", detail: <message>,
    transactionId}], and the log is left as it was; a lookup that succeeds
    is answered with its record, and one entry for it is appended to the
    log; so the log grows exactly when the lookup succeeds.  A failed
    fetch, a PDF that cannot be decoded, the sentinel page, a page that
    cannot be parsed and a response that is neither a string nor an array
    (the call of [includes] throws) all make the lookup fail. *)
Theorem failure_response_and_audit (req : request) (logs : list LogEntry) :
  (forall message,
      resolve (param_transactionId req) = Throw message ->
      handler req logs =
        (Failure 500 [ ("error", js "Failed to process transaction");
                       ("detail", message);
                       ("transactionId", param_transactionId req) ]%string,
         logs))
  /\ (forall link result,
      resolve (param_transactionId req) = Ok (link, result) ->
      fst (handler req logs) = Result result
      /\ exists entry,
          snd (handler req logs) = logs ++ [entry]
          /\ log_transactionId entry = param_transactionId req
          /\ log_link entry = link
          /\ log_response entry = result)
  /\ (snd (handler req logs) = logs <->
      exists message, resolve (param_transactionId req) = Throw message)
  /\ (forall message,
      startsWith (param_transactionId req) (js "FT") = true ->
      axios_get_arraybuffer (cbe_link (param_transactionId req)) = Throw message ->
      resolve (param_transactionId req) = Throw message)
  /\ (forall buffer message,
      startsWith (param_transactionId req) (js "FT") = true ->
      axios_get_arraybuffer (cbe_link (param_transactionId req)) = Ok buffer ->
      pdfParse buffer = Throw message ->
      resolve (param_transactionId req) = Throw message)
  /\ (forall message,
      startsWith (param_transactionId req) (js "FT") = false ->
      axios_get (telebirr_link (param_transactionId req)) = Throw message ->
      resolve (param_transactionId req) = Throw message)
  /\ (forall html,
      startsWith (param_transactionId req) (js "FT") = false ->
      axios_get (telebirr_link (param_transactionId req)) = Ok (VString html) ->
      includes html sentinel = true ->
      resolve (param_transactionId req) = Throw (js "Invalid Telebirr transaction ID"))
  /\ (forall html message,
      startsWith (param_transactionId req) (js "FT") = false ->
      axios_get (telebirr_link (param_transactionId req)) = Ok (VString html) ->
      includes html sentinel = false ->
      cheerio_load (VString html) = Throw message ->
      resolve (param_transactionId req) = Throw message)
  /\ (forall body,
      startsWith (param_transactionId req) (js "FT") = false ->
      axios_get (telebirr_link (param_transactionId req)) = Ok body ->
      has_includes body = false ->
      resolve (param_transactionId req) = Throw (type_error body)).
Proof.
  split; [|split; [|split; [|apply resolve_failures]]].
  - intros message H. unfold handler, Server.handler.
    fold resolve. now rewrite H.
  - intros link result H. unfold handler, Server.handler.
    fold resolve. rewrite H. split; [reflexivity|].
    eexists. split; [reflexivity|]. now repeat split.
  - unfold handler, Server.handler. fold resolve.
    destruct (resolve (param_transactionId req)) as [[link result]|message].
    + split.
      * intros E. now apply append_changes in E.
      * intros [message E]. discriminate E.
    + split; [now exists message|reflexivity].
Qed.
End HandlerProperties.

Lemma failure_response_and_audit_witness :
  handler (@Samples.unreachable jsstring) Samples.read_pdf
          (@Samples.unreachable jsvalue) Samples.engine_message Samples.load_page 0
          (Samples.a_request "FT25130ABCDE") []
  = (Failure 500 [ ("error", js "Failed to process transaction");
                   ("detail", js "Request failed with status code 500");
                   ("transactionId", js "FT25130ABCDE") ]%string,
     [])
  /\ snd (handler Samples.serve_pdf Samples.corrupt
                  Samples.serve_error_page Samples.engine_message Samples.load_page 0
                  (Samples.a_request "CE12345678") [])
     = [].
Proof.
  split.
  - apply (proj1 (failure_response_and_audit
                    (@Samples.unreachable jsstring) Samples.read_pdf
                    (@Samples.unreachable jsvalue) Samples.engine_message Samples.load_page 0
                    (Samples.a_request "FT25130ABCDE") [])).
    reflexivity.
  - apply (proj1 (proj2 (proj2 (failure_response_and_audit
                    Samples.serve_pdf Samples.corrupt
                    Samples.serve_error_page Samples.engine_message Samples.load_page 0
                    (Samples.a_request "CE12345678") [])))).
    exists (js "Invalid Telebirr transaction ID"). reflexivity.
Defined.

(** ** Whitespace normalization (line 50) *)

Section Replace.
Variable ignoreCase : bool.
Variable p : list item.
Variable by_ : jsstring.

(** A code unit of the result comes from the replacement or from the
    text. *)
Lemma replace_from_elements (s : jsstring) :
  forall skip c,
    In c (replace_from ignoreCase p by_ skip s) -> In c by_ \/ In c s.
Proof.
  induction s as [|x s IH]; intros skip c; cbn [replace_from].
  - destruct skip; [|intros []].
    destruct (run ignoreCase p []); [now left|intros []].
  - destruct skip as [|n].
    + destruct (run ignoreCase p (x :: s)) as [[g rest]|].
      * destruct (length (x :: s) - length rest)%nat; intros H;
          apply in_app_or in H as [H|H]; auto.
        -- destruct H as [H|H]; [right; now left|].
           destruct (IH _ _ H); [auto|right; now right].
        -- destruct (IH _ _ H); [auto|right; now right].
      * intros [H|H]; [right; now left|].
        destruct (IH _ _ H); [auto|right; now right].
    + intros H. destruct (IH _ _ H); [auto|right; now right].
Qed.

(** The code units of a match are passed over. *)
Lemma replace_from_skip (w s : jsstring) :
  replace_from ignoreCase p by_ (length w) (w ++ s) =
  replace_from ignoreCase p by_ 0 s.
Proof.
  induction w as [|x w IH]; [reflexivity|].
  simpl. exact IH.
Qed.
End Replace.

Lemma run_line_break (x : N) (s : jsstring) :
  run false line_break (x :: s) = None -> x <> 10%N.
Proof.
  intros H E. subst x. vm_compute in H. discriminate H.
Qed.

Lemma run_line_break_nil : run false line_break [] = None.
Proof. reflexivity. Qed.

Lemma run_line_break_shorter (s g rest : jsstring) :
  run false line_break s = Some (g, rest) -> (length rest < length s)%nat.
Proof.
  destruct s as [|x s]; [discriminate|].
  unfold line_break, run, opt, one, atom_match.
  destruct (x =? 13)%N.
  - destruct s as [|y s].
    + destruct (x =? 10)%N; [|discriminate].
      intros H; inversion H; subst; simpl; lia.
    + destruct (y =? 10)%N.
      * intros H; inversion H; subst; simpl; lia.
      * destruct (x =? 10)%N; [|discriminate].
        intros H; inversion H; subst; simpl; lia.
  - destruct (x =? 10)%N; [|discriminate].
    intros H; inversion H; subst; simpl; lia.
Qed.

(** No line feed is left by the first replacement. *)
Lemma line_breaks_replaced (s : jsstring) :
  forall skip, ~ In 10%N (replace_from false line_break (js " ") skip s).
Proof.
  induction s as [|x s IH]; intros skip.
  - cbn [replace_from]. destruct skip; [rewrite run_line_break_nil|]; intros [].
  - cbn [replace_from]. destruct skip as [|n]; [|apply IH].
    destruct (run false line_break (x :: s)) as [[g rest]|] eqn:E.
    + apply run_line_break_shorter in E.
      destruct (length (x :: s) - length rest)%nat eqn:L; [lia|].
      rewrite in_app_iff. intros [H|H].
      * vm_compute in H. destruct H as [H|[]]. discriminate H.
      * now apply IH in H.
    + intros [H|H].
      * exact (@run_line_break x s E H).
      * now apply IH in H.
Qed.

Lemma star_ws_all (s : jsstring) :
  star false ws (fun t => Some ([], t)) s = Some ([], trimStart s).
Proof.
  induction s as [|x s IH]; [reflexivity|].
  cbn [star trimStart atom_match ws] in *.
  destruct (is_space x); [|reflexivity].
  now rewrite IH.
Qed.

Lemma run_whitespace_run (s : jsstring) :
  run false whitespace_run s =
  match s with
  | x :: y :: r =>
      if is_space x && is_space y then Some ([], trimStart r) else None
  | _ => None
  end.
Proof.
  destruct s as [|x [|y r]]; cbn [run whitespace_run one atom_match ws].
  - reflexivity.
  - now destruct (is_space x).
  - destruct (is_space x), (is_space y); try reflexivity.
    apply star_ws_all.
Qed.

Lemma trimStart_suffix (s : jsstring) :
  exists w, s = w ++ trimStart s /\ blank w = true.
Proof.
  induction s as [|x s (w & E & Hw)]; [now exists []|].
  simpl. destruct (is_space x) eqn:Hx.
  - exists (x :: w). simpl. rewrite Hx, Hw. now rewrite <- E.
  - now exists [].
Qed.

Lemma trimStart_head (s : jsstring) (c : N) (r : jsstring) :
  trimStart s = c :: r -> is_space c = false.
Proof.
  induction s as [|x s IH]; simpl; [discriminate|].
  destruct (is_space x) eqn:Hx; [exact IH|].
  intros H. now inversion H; subst.
Qed.

Lemma collapse_nil : collapse [] = [].
Proof. reflexivity. Qed.

Lemma collapse_cons (x : N) (s : jsstring) :
  collapse (x :: s) =
  if is_space x && head_space s
  then 32%N :: collapse (trimStart s)
  else x :: collapse s.
Proof.
  unfold collapse, replace. cbn [replace_from].
  rewrite run_whitespace_run.
  destruct s as [|y r]; cbn [head_space].
  - now rewrite andb_false_r.
  - destruct (is_space x && is_space y) eqn:E; [|reflexivity].
    apply andb_true_iff in E as [_ Hy].
    cbn [trimStart]. rewrite Hy.
    destruct (trimStart_suffix r) as (w & Er & _).
    assert (L : (length (x :: y :: r) - length (trimStart r) = S (length (y :: w)))%nat).
    { pose proof (f_equal (@length N) Er) as Lr.
      rewrite length_app in Lr. cbn [length]. lia. }
    rewrite L.
    rewrite Er at 1.
    change (y :: w ++ trimStart r) with ((y :: w) ++ trimStart r).
    now rewrite replace_from_skip.
Qed.

Lemma adjacent_spaces_cons (x c : N) (r : jsstring) :
  adjacent_spaces (x :: c :: r) =
  (is_space x && is_space c) || adjacent_spaces (c :: r).
Proof. reflexivity. Qed.

Lemma collapse_invariant (n : nat) :
  forall s, (length s <= n)%nat ->
    adjacent_spaces (collapse s) = false
    /\ (head_space (collapse s) = true -> head_space s = true).
Proof.
  induction n as [|n IH]; intros s L.
  - destruct s; [|simpl in L; lia]. now split.
  - destruct s as [|x s]; [now split|].
    simpl in L. rewrite collapse_cons.
    destruct (is_space x && head_space s) eqn:E.
    + apply andb_true_iff in E as [Hx Hs].
      destruct (trimStart_suffix s) as (w & Es & _).
      assert (Lt : (length (trimStart s) <= n)%nat).
      { apply (f_equal (@length N)) in Es. rewrite length_app in Es. lia. }
      destruct (IH _ Lt) as [Ha Hh].
      split; [|intros _; exact Hx].
      destruct (collapse (trimStart s)) as [|c r] eqn:Ec; [reflexivity|].
      rewrite adjacent_spaces_cons, Ha, orb_false_r.
      destruct (is_space c) eqn:Hc; [|now rewrite andb_false_r].
      specialize (Hh Hc).
      destruct (trimStart s) as [|c' r'] eqn:Et; [discriminate|].
      apply trimStart_head in Et. simpl in Hh. congruence.
    + assert (Ls : (length s <= n)%nat) by lia.
      destruct (IH _ Ls) as [Ha Hh].
      split; [|now simpl].
      destruct (collapse s) as [|c r] eqn:Ec; [reflexivity|].
      rewrite adjacent_spaces_cons, Ha, orb_false_r.
      destruct (is_space x) eqn:Hx; [|reflexivity].
      destruct (is_space c) eqn:Hc; [|reflexivity].
      rewrite (Hh Hc) in E. discriminate E.
Qed.

Lemma unbreak_nil : unbreak [] = [].
Proof. reflexivity. Qed.

Lemma unbreak_cons (x : N) (s : jsstring) :
  unbreak (x :: s) =
  match s with
  | y :: r =>
      if ((x =? 13) && (y =? 10))%N then 32%N :: unbreak r
      else if (x =? 10)%N then 32%N :: unbreak s
      else x :: unbreak s
  | [] => if (x =? 10)%N then [32%N] else [x]
  end.
Proof.
  unfold unbreak, replace. cbn [replace_from].
  unfold line_break at 1. cbn [run]. unfold opt, one, atom_match.
  destruct (N.eqb_spec x 13) as [->|H13].
  - destruct s as [|y r]; [reflexivity|].
    destruct (y =? 10)%N; cbn [andb].
    + replace (length (13%N :: y :: r) - length r)%nat with 2%nat
        by (cbn [length]; lia).
      reflexivity.
    + reflexivity.
  - cbn [andb]. destruct (x =? 10)%N.
    + replace (length (x :: s) - length s)%nat with 1%nat
        by (cbn [length]; lia).
      destruct s; reflexivity.
    + destruct s; reflexivity.
Qed.

Lemma unbreak_breaks_to_spaces (n : nat) :
  forall s, (length s <= n)%nat -> unbreak s = breaks_to_spaces s.
Proof.
  induction n as [|n IH]; intros s L.
  - destruct s; [reflexivity|simpl in L; lia].
  - destruct s as [|x s]; [reflexivity|].
    cbn [length] in L. rewrite unbreak_cons. cbn [breaks_to_spaces].
    destruct s as [|y r]; [reflexivity|].
    cbn [length] in L.
    destruct ((x =? 13) && (y =? 10))%N.
    + now rewrite (IH r) by lia.
    + destruct (x =? 10)%N; now rewrite (IH (y :: r)) by (cbn [length]; lia).
Qed.

Lemma runs_to_spaces_inside (s : jsstring) :
  runs_to_spaces true s = runs_to_spaces false (trimStart s).
Proof.
  induction s as [|x s IH]; [reflexivity|].
  cbn [runs_to_spaces trimStart].
  destruct (is_space x) eqn:Hx; [exact IH|].
  cbn [runs_to_spaces]. now rewrite Hx.
Qed.

Lemma collapse_runs_to_spaces (n : nat) :
  forall s, (length s <= n)%nat -> collapse s = runs_to_spaces false s.
Proof.
  induction n as [|n IH]; intros s L.
  - destruct s; [reflexivity|simpl in L; lia].
  - destruct s as [|x s]; [reflexivity|].
    cbn [length] in L. rewrite collapse_cons. cbn [runs_to_spaces].
    destruct (is_space x) eqn:Hx; cbn [andb].
    + destruct s as [|y r]; [reflexivity|].
      cbn [head_space]. destruct (is_space y) eqn:Hy.
      * rewrite runs_to_spaces_inside. f_equal. apply IH.
        destruct (trimStart_suffix (y :: r)) as (w & Es & _).
        apply (f_equal (@length N)) in Es. rewrite length_app in Es. lia.
      * f_equal. apply IH. lia.
    + f_equal. apply IH. lia.
Qed.

(** C9, as the code has it: flattening replaces every line break (a line
    feed, or a carriage return with the line feed after it) by a space and
    then every run of two or more whitespace code units by a space; so the
    flattened text holds no line feed and no two whitespace code units side
    by side, and each of its code units is a space or a code unit of the
    decoded text.  (A whitespace code unit that stands alone is kept as it
    is.) *)
Theorem flatten_single_spaces (pdfText : jsstring) :
  flatten pdfText = single_spaces pdfText
  /\ existsb (N.eqb 10) (flatten pdfText) = false
  /\ adjacent_spaces (flatten pdfText) = false
  /\ forallb (fun c => (c =? 32)%N || existsb (N.eqb c) pdfText) (flatten pdfText)
     = true.
Proof.
  assert (El : forall c,
             In c (flatten pdfText) -> c = 32%N \/ In c pdfText).
  { intros c H. unfold flatten, replace in H.
    apply replace_from_elements in H as [H|H].
    - left. vm_compute in H. now destruct H as [H|[]].
    - apply replace_from_elements in H as [H|H]; [|now right].
      left. vm_compute in H. now destruct H as [H|[]]. }
  split; [|split; [|split]].
  - change (flatten pdfText) with (collapse (unbreak pdfText)).
    unfold single_spaces.
    rewrite (@collapse_runs_to_spaces _ _ (le_n _)).
    now rewrite (@unbreak_breaks_to_spaces _ _ (le_n _)).
  - destruct (existsb (N.eqb 10) (flatten pdfText)) eqn:E; [|reflexivity].
    apply existsb_exists in E as (c & Hc & Ec).
    apply N.eqb_eq in Ec. subst c.
    unfold flatten, replace in Hc.
    apply replace_from_elements in Hc as [H|H].
    + vm_compute in H. destruct H as [H|[]]. discriminate H.
    + now apply line_breaks_replaced in H.
  - exact (proj1 (@collapse_invariant _ _ (le_n _))).
  - apply forallb_forall. intros c Hc.
    destruct (El c Hc) as [->|H]; [reflexivity|].
    apply orb_true_iff. right. apply existsb_exists.
    exists c. split; [exact H|apply N.eqb_refl].
Qed.

(** C9 fails as stated: a tab between two letters stays a tab, and a
    carriage return that no line feed follows stays in the text. *)
Lemma lone_whitespace_counterexample :
  flatten [97; 9; 98]%N = [97; 9; 98]%N
  /\ flatten [97; 13; 98]%N = [97; 13; 98]%N
  /\ is_space 9 = true /\ is_line_terminator 13 = true.
Proof. vm_compute. repeat split; reflexivity. Qed.

(** ** Trimming *)

Lemma trimStart_fixed (s : jsstring) : head_space s = false -> trimStart s = s.
Proof. destruct s as [|x s]; simpl; [reflexivity|]. now intros ->. Qed.

Lemma trimStart_head_space (s : jsstring) : head_space (trimStart s) = false.
Proof.
  destruct (trimStart s) as [|c r] eqn:E; [reflexivity|].
  simpl. exact (trimStart_head _ E).
Qed.

Lemma blank_app (a b : jsstring) : blank (a ++ b) = blank a && blank b.
Proof. apply forallb_app. Qed.

Lemma ends_clean_rev (q : jsstring) : head_space q = false -> ends_clean (rev q).
Proof.
  intros Hq t1 t2 E Hb.
  apply (f_equal (@rev N)) in E. rewrite rev_involutive, rev_app_distr in E.
  destruct (rev t2) as [|c r] eqn:Er.
  - apply (f_equal (@rev N)) in Er. now rewrite rev_involutive in Er.
  - subst q. simpl in Hq.
    assert (Hc : In c t2).
    { apply in_rev. rewrite Er. now left. }
    unfold blank in Hb. rewrite forallb_forall in Hb.
    rewrite (Hb _ Hc) in Hq. discriminate Hq.
Qed.

Lemma ends_clean_head (s : jsstring) : ends_clean s -> head_space (rev s) = false.
Proof.
  intros H. destruct (rev s) as [|c q] eqn:E; [reflexivity|].
  simpl. destruct (is_space c) eqn:Hc; [|reflexivity].
  apply (f_equal (@rev N)) in E. rewrite rev_involutive in E. simpl in E.
  assert (X : [c] = []) by (apply (H (rev q) [c] E); simpl; now rewrite Hc).
  discriminate X.
Qed.

Lemma trim_decompose (s : jsstring) :
  exists w1 w2,
    s = w1 ++ trim s ++ w2
    /\ blank w1 = true /\ blank w2 = true
    /\ head_space (trim s) = false
    /\ ends_clean (trim s).
Proof.
  destruct (trimStart_suffix s) as (w1 & E1 & H1).
  destruct (trimStart_suffix (rev (trimStart s))) as (w2 & E2 & H2).
  assert (E3 : trimStart s = trim s ++ rev w2).
  { unfold trim, trimEnd.
    rewrite <- rev_app_distr, <- E2. now rewrite rev_involutive. }
  exists w1, (rev w2). repeat split.
  - now rewrite <- E3.
  - exact H1.
  - unfold blank in *. rewrite forallb_forall in *.
    intros c Hc. apply H2. now apply in_rev.
  - pose proof (trimStart_head_space s) as Hh. rewrite E3 in Hh.
    destruct (trim s); [reflexivity|exact Hh].
  - unfold trim, trimEnd. apply ends_clean_rev, trimStart_head_space.
Qed.

Lemma trim_fixed (s : jsstring) :
  head_space s = false -> ends_clean s -> trim s = s.
Proof.
  intros Hh He. unfold trim, trimEnd.
  rewrite (trimStart_fixed _ Hh).
  rewrite (trimStart_fixed _ (ends_clean_head He)).
  apply rev_involutive.
Qed.

Lemma trim_idempotent (s : jsstring) : trim (trim s) = trim s.
Proof.
  destruct (trim_decompose s) as (w1 & w2 & _ & _ & _ & Hh & He).
  now apply trim_fixed.
Qed.

Lemma trim_nil_blank (s : jsstring) : trim s = [] -> blank s = true.
Proof.
  intros E. destruct (trim_decompose s) as (w1 & w2 & Es & H1 & H2 & _).
  rewrite E in Es. rewrite Es. simpl. now rewrite blank_app, H1, H2.
Qed.

(** ** The matcher on a label, a value and an anchor *)

Lemma run_label (l : list atom) (rest : list item) (s : jsstring) :
  run true (map One l ++ rest) s =
  if label_at l s then run true rest (skipn (length l) s) else None.
Proof.
  revert s; induction l as [|a l IH]; intros s; [reflexivity|].
  destruct s as [|x s]; [reflexivity|].
  cbn [map app run one label_at length skipn].
  destruct (atom_match true a x); [apply IH|reflexivity].
Qed.

Lemma run_label_only (l : list atom) (s : jsstring) :
  run true (map One l) s =
  if label_at l s then Some ([], skipn (length l) s) else None.
Proof. rewrite <- (app_nil_r (map One l)). now rewrite run_label. Qed.

Lemma star_nil (a : atom) (k : jsstring -> option result) :
  star true a k [] = k [].
Proof. reflexivity. Qed.

Lemma star_cons (a : atom) (k : jsstring -> option result) (x : N) (s : jsstring) :
  star true a k (x :: s) =
  if atom_match true a x
  then match star true a k s with
       | Some r => Some r
       | None => k (x :: s)
       end
  else k (x :: s).
Proof. reflexivity. Qed.

Lemma lazy_group_eq (a : atom) (k : jsstring -> option result) (s : jsstring) :
  lazy_group true a k s =
  match k s with
  | Some (_, rest) => Some ([], rest)
  | None =>
      match s with
      | x :: s' =>
          if atom_match true a x
          then match lazy_group true a k s' with
               | Some (g, rest) => Some (x :: g, rest)
               | None => None
               end
          else None
      | [] => None
      end
  end.
Proof. destruct s; reflexivity. Qed.

Lemma star_sound (a : atom) (k : jsstring -> option result)
      (u : jsstring) (r : result) :
  star true a k u = Some r ->
  exists w t, u = w ++ t /\ forallb (atom_match true a) w = true /\ k t = Some r.
Proof.
  induction u as [|x u IH].
  - rewrite star_nil. intros H. now exists [], [].
  - rewrite star_cons. destruct (atom_match true a x) eqn:Hx.
    + destruct (star true a k u) as [r'|] eqn:E.
      * intros H. inversion H; subst r'.
        destruct (IH eq_refl) as (w & t & -> & Hw & Hk).
        exists (x :: w), t. simpl. now rewrite Hx, Hw.
      * intros H. now exists [], (x :: u).
    + intros H. now exists [], (x :: u).
Qed.

(** A greedy star that can go on from the end of the run does so. *)
Lemma star_longest (a : atom) (k : jsstring -> option result)
      (w t : jsstring) (r : result) :
  forallb (atom_match true a) w = true ->
  match t with x :: _ => atom_match true a x = false | [] => True end ->
  k t = Some r ->
  star true a k (w ++ t) = Some r.
Proof.
  intros Hw Ht Hk. induction w as [|x w IH].
  - destruct t as [|y t]; cbn [app].
    + now rewrite star_nil.
    + now rewrite star_cons, Ht.
  - simpl in Hw. apply andb_true_iff in Hw as [Hx Hw].
    cbn [app]. now rewrite star_cons, Hx, (IH Hw).
Qed.

(** A lazy group stops at the first place from which the rest matches. *)
Lemma lazy_first (a : atom) (k : jsstring -> option result)
      (v z c rest : jsstring) :
  forallb (atom_match true a) v = true ->
  (forall t1 t2, v = t1 ++ t2 -> t2 <> [] -> k (t2 ++ z) = None) ->
  k z = Some (c, rest) ->
  lazy_group true a k (v ++ z) = Some (v, rest).
Proof.
  intros Hv Hnone Hk. induction v as [|x v IH].
  - cbn [app]. now rewrite lazy_group_eq, Hk.
  - simpl in Hv. apply andb_true_iff in Hv as [Hx Hv].
    assert (E0 : k ((x :: v) ++ z) = None)
      by (apply (Hnone [] (x :: v)); [reflexivity|discriminate]).
    assert (E1 : lazy_group true a k (v ++ z) = Some (v, rest)).
    { apply IH; [exact Hv|].
      intros t1 t2 E Hne. apply (Hnone (x :: t1) t2); [now rewrite E|exact Hne]. }
    rewrite lazy_group_eq, E0. cbn [app]. now rewrite Hx, E1.
Qed.

Lemma lazy_sound (a : atom) (k : jsstring -> option result)
      (u g rest : jsstring) :
  lazy_group true a k u = Some (g, rest) ->
  exists t c, u = g ++ t /\ k t = Some (c, rest).
Proof.
  revert g; induction u as [|x u IH]; intros g; rewrite lazy_group_eq.
  - destruct (k []) as [[c r]|] eqn:E; [|discriminate].
    intros H; inversion H; subst. now exists [], c.
  - destruct (k (x :: u)) as [[c r]|] eqn:E.
    + intros H; inversion H; subst. now exists (x :: u), c.
    + destruct (atom_match true a x); [|discriminate].
      destruct (lazy_group true a k u) as [[g' r']|] eqn:E'; [|discriminate].
      intros H; inversion H; subst.
      destruct (IH _ eq_refl) as (t & c & -> & Hk).
      now exists t, c.
Qed.

(** ** First occurrences *)

Lemma index_of_spec (l : list atom) (s : jsstring) (n : nat) :
  index_of l s = Some n ->
  label_at l (skipn n s) = true
  /\ (forall i, (i < n)%nat -> label_at l (skipn i s) = false).
Proof.
  revert n; induction s as [|x s IH]; intros n; cbn [index_of].
  - destruct (label_at l []) eqn:E; [|discriminate].
    intros H; inversion H; subst. split; [exact E|intros i Hi; lia].
  - destruct (label_at l (x :: s)) eqn:E.
    + intros H; inversion H; subst. split; [exact E|intros i Hi; lia].
    + destruct (index_of l s) as [m|]; [|discriminate].
      intros H; inversion H; subst.
      destruct (IH _ eq_refl) as [Hm Hlt].
      split; [exact Hm|].
      intros [|i] Hi; [exact E|]. apply Hlt. lia.
Qed.

Lemma index_of_none (l : list atom) (s : jsstring) :
  index_of l s = None -> forall i, label_at l (skipn i s) = false.
Proof.
  induction s as [|x s IH]; cbn [index_of].
  - destruct (label_at l []) eqn:E; [discriminate|].
    intros _ i. now rewrite skipn_nil.
  - destruct (label_at l (x :: s)) eqn:E; [discriminate|].
    destruct (index_of l s); [discriminate|].
    intros _ [|i]; [exact E|]. now apply IH.
Qed.

Lemma index_of_some (l : list atom) (s : jsstring) (i : nat) :
  label_at l (skipn i s) = true -> exists n, index_of l s = Some n /\ (n <= i)%nat.
Proof.
  intros H. destruct (index_of l s) as [n|] eqn:E.
  - exists n. split; [reflexivity|].
    destruct (index_of_spec _ _ E) as [_ Hlt].
    destruct (Nat.le_gt_cases n i) as [Hle|Hgt]; [exact Hle|].
    rewrite (Hlt _ Hgt) in H. discriminate H.
  - rewrite (index_of_none _ _ E) in H. discriminate H.
Qed.

(** The search starts its match at the first occurrence of the label, when
    the pattern matches there. *)
Lemma search_at_index (l : list atom) (rest : list item) (text : jsstring) :
  forall n g r,
    index_of l text = Some n ->
    run true (map One l ++ rest) (skipn n text) = Some (g, r) ->
    search true (map One l ++ rest) text = Some g.
Proof.
  induction text as [|x text IH]; intros n g r; cbn [index_of].
  - destruct (label_at l []) eqn:E; [|discriminate].
    intros H; inversion H; subst. cbn [skipn search]. now intros ->.
  - destruct (label_at l (x :: text)) eqn:E.
    + intros H; inversion H; subst. cbn [skipn search]. now intros ->.
    + destruct (index_of l text) as [m|] eqn:Em; [|discriminate].
      intros H; inversion H; subst. cbn [skipn search].
      rewrite (run_label l rest (x :: text)), E.
      now apply IH.
Qed.

Lemma search_none (l : list atom) (rest : list item) (text : jsstring) :
  index_of l text = None -> search true (map One l ++ rest) text = None.
Proof.
  induction text as [|x text IH]; cbn [index_of search].
  - rewrite run_label. destruct (label_at l []); [discriminate|reflexivity].
  - rewrite run_label. destruct (label_at l (x :: text)); [discriminate|].
    destruct (index_of l text); [discriminate|]. intros _. now apply IH.
Qed.

(** ** The value between a label and its anchor *)

(** A whitespace code unit is no letter, so it only matches itself. *)
Lemma space_matches_space (c x : N) :
  atom_match true (Chr c) x = true -> is_space x = true -> is_space c = true.
Proof.
  unfold atom_match, canonicalize. intros Hm Hx.
  apply N.eqb_eq in Hm.
  assert (Hr : ((97 <=? x) && (x <=? 122))%N = false).
  { destruct ((97 <=? x) && (x <=? 122))%N eqn:E; [|reflexivity].
    apply andb_true_iff in E as [E1 E2].
    apply N.leb_le in E1, E2.
    unfold is_space, is_line_terminator in Hx.
    repeat (apply orb_true_iff in Hx as [Hx|Hx]);
      try (apply N.eqb_eq in Hx; lia).
    apply andb_true_iff in Hx as [H1 H2]. apply N.leb_le in H1, H2. lia. }
  rewrite Hr in Hm.
  destruct ((97 <=? c) && (c <=? 122))%N eqn:E; [|now subst].
  apply andb_true_iff in E as [E1 E2].
  apply N.leb_le in E1, E2.
  unfold is_space, is_line_terminator in Hx.
  repeat (apply orb_true_iff in Hx as [Hx|Hx]);
    try (apply N.eqb_eq in Hx; lia).
  apply andb_true_iff in Hx as [H1 H2]. apply N.leb_le in H1, H2. lia.
Qed.

Lemma label_head (l : list atom) (x : N) (s : jsstring) :
  starts_clean l = true -> label_at l (x :: s) = true -> is_space x = false.
Proof.
  destruct l as [|[c|p] l]; try discriminate.
  cbn [starts_clean label_at]. intros Hc Hl.
  apply andb_true_iff in Hl as [Hm _].
  destruct (is_space x) eqn:Hx; [|reflexivity].
  rewrite (space_matches_space _ _ Hm Hx) in Hc. discriminate Hc.
Qed.

Lemma label_nonempty (l : list atom) (s : jsstring) :
  starts_clean l = true -> label_at l s = true ->
  exists y s', s = y :: s' /\ is_space y = false.
Proof.
  intros Hc Hl. destruct s as [|y s'].
  - destruct l as [|[c|p] l]; discriminate.
  - exists y, s'. split; [reflexivity|]. exact (label_head _ _ _ Hc Hl).
Qed.

Lemma skipn_app_length (A : Type) (a b : list A) : skipn (length a) (a ++ b) = b.
Proof. induction a; simpl; auto. Qed.

Lemma capture_between (after : list atom) (R : jsstring) (m : nat) :
  starts_clean after = true ->
  index_of after R = Some m ->
  forallb is_dot (trim (firstn m R)) = true ->
  run true (Star ws :: LazyGroup dot :: Star ws :: map One after) R =
  Some (trim (firstn m R), skipn (length after) (skipn m R)).
Proof.
  intros Hc Hi Hdot.
  destruct (index_of_spec _ _ Hi) as [Hat Hbefore].
  destruct (label_nonempty _ _ Hc Hat) as (y & R'' & ER' & Hy).
  assert (Lm : (m < length R)%nat).
  { destruct (Nat.lt_ge_cases m (length R)) as [H|H]; [exact H|].
    rewrite (skipn_all2 _ H) in ER'. discriminate ER'. }
  assert (Lv : length (firstn m R) = m) by (apply firstn_length_le; lia).
  pose proof (firstn_skipn m R) as ER.
  set (v := firstn m R) in *. set (R' := skipn m R) in *.
  set (k3 := run true (map One after)).
  assert (H3 : k3 R' = Some ([], skipn (length after) R')).
  { unfold k3. now rewrite run_label_only, Hat. }
  set (k2 := star true ws k3).
  set (k1 := lazy_group true dot k2).
  change (star true ws k1 R = Some (trim v, skipn (length after) R')).
  destruct (trim_decompose v) as (w1 & w2 & Ev & H1 & H2 & Hh & He).
  assert (HR' : match R' with x :: _ => atom_match true ws x = false | [] => True end).
  { rewrite ER'. exact Hy. }
  destruct (trim v) as [|c tv] eqn:Et.
  - (* a blank value *)
    rewrite <- ER. apply star_longest.
    + change (blank v = true). apply trim_nil_blank. exact Et.
    + exact HR'.
    + unfold k1. rewrite lazy_group_eq.
      assert (E2 : k2 R' = Some ([], skipn (length after) R')).
      { unfold k2. rewrite ER', star_cons.
        change (atom_match true ws y) with (is_space y). rewrite Hy.
        rewrite <- ER'. exact H3. }
      now rewrite E2.
  - rewrite <- ER, Ev, <- app_assoc. apply star_longest.
    + exact H1.
    + exact Hh.
    + rewrite <- app_assoc. unfold k1.
      apply lazy_first with (c := []).
      * exact Hdot.
      * intros t1 t2 E Hne.
        destruct (k2 (t2 ++ w2 ++ R')) as [r|] eqn:Ek; [|reflexivity].
        exfalso. unfold k2 in Ek.
        apply star_sound in Ek as (w & t & Ew & Hw & Hk).
        unfold k3 in Hk. rewrite run_label_only in Hk.
        destruct (label_at after t) eqn:Hl; [|discriminate].
        apply app_eq_app in Ew as [l [[E1 E2]|[E1 E2]]].
        -- (* the spaces stop inside the value *)
           destruct l as [|z l].
           ++ rewrite app_nil_r in E1. subst t2.
              apply Hne, (He t1 w E). exact Hw.
           ++ assert (Hpos : skipn (length (w1 ++ t1 ++ w)) R = t).
              { assert (X : R = (w1 ++ t1 ++ w) ++ t).
                { rewrite <- ER, Ev, E, E1, E2.
                  repeat rewrite <- app_assoc. reflexivity. }
                rewrite X. apply skipn_app_length. }
              assert (Hlt : (length (w1 ++ t1 ++ w) < m)%nat).
              { rewrite <- Lv, Ev, E, E1. rewrite !length_app. simpl. lia. }
              rewrite <- Hpos, (Hbefore _ Hlt) in Hl. discriminate Hl.
        -- (* the spaces would cover the end of the value *)
           apply Hne, (He t1 t2 E).
           subst w. change (blank (t2 ++ l) = true) in Hw.
           rewrite blank_app in Hw. now apply andb_true_iff in Hw as [Hw _].
      * unfold k2. apply star_longest; [exact H2|exact HR'|exact H3].
Qed.

(** The extractor computes the first-occurrence anchor pair: when the label
    and, after it, the anchor occur, and the value between them stays on one
    line, [extract] returns that value, trimmed. *)
Lemma extract_first (text : jsstring) (label after : list atom) (v : jsstring) :
  starts_clean after = true ->
  between text label after = Some v ->
  forallb is_dot (trim v) = true ->
  extract text label after = Str (trim v).
Proof.
  intros Hc Hb Hdot. unfold between in Hb.
  destruct (index_of label text) as [n|] eqn:En; [|discriminate].
  destruct (index_of after (skipn (n + length label) text)) as [m|] eqn:Em;
    [|discriminate].
  inversion Hb; subst v; clear Hb.
  unfold extract, pattern.
  erewrite search_at_index; [|exact En|].
  - now rewrite trim_idempotent.
  - rewrite run_label, (proj1 (index_of_spec _ _ En)).
    rewrite skipn_skipn, (Nat.add_comm (length label) n).
    apply (capture_between _ _ Hc Em Hdot).
Qed.

Lemma extract_absent (text : jsstring) (label after : list atom) :
  occurs label text = false -> extract text label after = Null.
Proof.
  unfold occurs, extract, pattern. intros H.
  destruct (index_of label text) eqn:E; [discriminate|].
  now rewrite search_none.
Qed.

Lemma search_sound (l : list atom) (rest : list item) (text g : jsstring) :
  search true (map One l ++ rest) text = Some g ->
  exists i r,
    label_at l (skipn i text) = true
    /\ run true rest (skipn (length l + i) text) = Some (g, r).
Proof.
  induction text as [|x text IH]; cbn [search]; rewrite run_label.
  - destruct (label_at l []) eqn:E; [|discriminate].
    destruct (run true rest (skipn (length l) [])) as [[g' r]|] eqn:Er; [|discriminate].
    intros H; inversion H; subst.
    exists 0%nat, r. rewrite Nat.add_0_r. now split.
  - destruct (label_at l (x :: text)) eqn:E.
    + destruct (run true rest (skipn (length l) (x :: text))) as [[g' r]|] eqn:Er.
      * intros H; inversion H; subst.
        exists 0%nat, r. rewrite Nat.add_0_r. now split.
      * intros H. destruct (IH H) as (i & r & Hl & Hr).
        exists (S i), r. rewrite Nat.add_succ_r. now split.
    + intros H. destruct (IH H) as (i & r & Hl & Hr).
      exists (S i), r. rewrite Nat.add_succ_r. now split.
Qed.

Lemma capture_sound (after : list atom) (u g r : jsstring) :
  run true (Star ws :: LazyGroup dot :: Star ws :: map One after) u = Some (g, r) ->
  exists j, label_at after (skipn j u) = true.
Proof.
  cbn [run]. intros H.
  apply star_sound in H as (w & t & -> & _ & H).
  apply lazy_sound in H as (t' & c & -> & H).
  apply star_sound in H as (w' & t'' & -> & _ & H).
  rewrite run_label_only in H.
  destruct (label_at after t'') eqn:E; [|discriminate].
  exists (length (w ++ g ++ w')).
  replace (w ++ g ++ w' ++ t'') with ((w ++ g ++ w') ++ t'')
    by (repeat rewrite <- app_assoc; reflexivity).
  now rewrite skipn_app_length.
Qed.

(** Without a label that the anchor follows, [extract] returns [null]. *)
Lemma extract_no_pair (text : jsstring) (label after : list atom) :
  between text label after = None -> extract text label after = Null.
Proof.
  intros Hb. unfold extract, pattern.
  destruct (search true _ text) as [g|] eqn:Es; [|reflexivity].
  exfalso.
  apply search_sound in Es as (i & r & Hl & Hr).
  apply capture_sound in Hr as [j Hj].
  destruct (index_of_some _ _ _ Hl) as (n & En & Hn).
  unfold between in Hb. rewrite En in Hb.
  assert (Hat : label_at after (skipn (j + (i - n)) (skipn (n + length label) text)) = true).
  { rewrite skipn_skipn. rewrite skipn_skipn in Hj.
    replace (j + (i - n) + (n + length label))%nat with (j + (length label + i))%nat by lia.
    exact Hj. }
  destruct (index_of_some _ _ _ Hat) as (m & Em & _).
  rewrite Em in Hb. discriminate Hb.
Qed.

Lemma between_absent (text : jsstring) (label after : list atom) :
  occurs label text = false -> between text label after = None.
Proof.
  unfold occurs, between. now destruct (index_of label text).
Qed.

(** ** What an occurrence is *)

Lemma label_at_iff (l : list atom) (s : jsstring) :
  label_at l s = true <->
  exists x rest,
    s = x ++ rest /\ Forall2 (fun a c => atom_match true a c = true) l x.
Proof.
  revert s; induction l as [|a l IH]; intros s.
  - split; [intros _; exists [], s; now split|reflexivity].
  - destruct s as [|c s]; cbn [label_at].
    + split; [discriminate|].
      intros (x & rest & E & H). inversion H; subst. discriminate E.
    + rewrite andb_true_iff, IH. split.
      * intros (Hc & x & rest & -> & H).
        exists (c :: x), rest. split; [reflexivity|now constructor].
      * intros (x & rest & E & H). inversion H; subst.
        inversion E; subst. split; [assumption|]. now exists l', rest.
Qed.

(** [occurs] holds exactly of the texts that contain, somewhere, code units
    that the atoms of the label match one by one. *)
Lemma occurs_iff (l : list atom) (s : jsstring) :
  occurs l s = true <->
  exists before x rest,
    s = before ++ x ++ rest
    /\ Forall2 (fun a c => atom_match true a c = true) l x.
Proof.
  unfold occurs. split.
  - destruct (index_of l s) as [n|] eqn:E; [|discriminate]. intros _.
    destruct (index_of_spec _ _ E) as [H _].
    apply label_at_iff in H as (x & rest & Ex & H).
    exists (firstn n s), x, rest. split; [|exact H].
    now rewrite <- Ex, firstn_skipn.
  - intros (before & x & rest & -> & H).
    assert (Hl : label_at l (skipn (length before) (before ++ x ++ rest)) = true).
    { rewrite skipn_app_length. apply label_at_iff. now exists x, rest. }
    destruct (index_of_some _ _ _ Hl) as (n & -> & _). reflexivity.
Qed.

(** ** The CBE extractor *)

Section CBEFields.
Variable Buffer : Type.
Variable axios_get_arraybuffer : jsstring -> outcome Buffer.
Variable pdfParse : Buffer -> outcome jsstring.

Lemma parseFT_returns (link transactionId : jsstring)
      (buffer : Buffer) (pdfText : jsstring) :
  axios_get_arraybuffer link = Ok buffer ->
  pdfParse buffer = Ok pdfText ->
  parseFT axios_get_arraybuffer pdfParse link transactionId =
  Ok (cbe_record link transactionId (flatten pdfText)).
Proof. intros H1 H2. unfold parseFT, bind. now rewrite H1, H2. Qed.

Lemma well_formed_populated (v : jsstring) :
  well_formed v = true -> truthy (trim v) = true.
Proof.
  unfold well_formed. intros H. apply andb_true_iff in H as [H _].
  destruct (trim v) eqn:E; [|reflexivity].
  now rewrite (trim_nil_blank _ E) in H.
Qed.

Lemma blank_extracted (text : jsstring) (label after : list atom) (v : jsstring) :
  starts_clean after = true ->
  between text label after = Some v ->
  blank v = true ->
  extract text label after = Str [].
Proof.
  intros Hc Hb Hv.
  rewrite (@extract_first text label after v Hc Hb); rewrite (trim_blank _ Hv);
    reflexivity.
Qed.

Lemma fallback_reading (text : jsstring) (label after : list atom)
      (fallback : jsstring) :
  starts_clean after = true ->
  field_reading text label after fallback []
                (Some (or_else (extract text label after) fallback)).
Proof.
  intros Hc. split; [|split].
  - intros H. now rewrite (extract_no_pair _ _ _ H).
  - intros v Hb Hv. now rewrite (blank_extracted _ _ _ Hc Hb Hv).
  - intros v Hb Hv.
    assert (Hd : forallb is_dot (trim v) = true).
    { unfold well_formed in Hv. now apply andb_true_iff in Hv as [_ Hv]. }
    rewrite (@extract_first text label after v Hc Hb Hd). cbn [or_else].
    now rewrite (well_formed_populated _ Hv), app_nil_r.
Qed.

(** C5, as the code has it: a missing field does not make [parseFT] fail.
    For [payerAccount], [receiverAccount] and [totalAmount] the field is
    its fallback ([Unknown], [1000009338067], [Unknown]) when no occurrence
    of its label ([Account], a masked account, the total label) is followed
    anywhere by its anchor ([Receiver], [Payment Date & Time],
    [Amount in Word]), in particular when the label occurs nowhere, and when
    only whitespace stands between the two; otherwise, if the text between
    the first such label and the anchor stays on one line, the field is
    that text, trimmed (and followed by [ ETB] for [totalAmount]),
    whatever it is. *)
Theorem missing_labels_fall_back (link transactionId : jsstring)
        (buffer : Buffer) (pdfText : jsstring) :
  axios_get_arraybuffer link = Ok buffer ->
  pdfParse buffer = Ok pdfText ->
  exists r,
    parseFT axios_get_arraybuffer pdfParse link transactionId = Ok r
    /\ (occurs (lit "Account") (flatten pdfText) = false ->
        get (data r) "payerAccount" = Some (Str (js "Unknown")))
    /\ (occurs masked_account (flatten pdfText) = false ->
        get (data r) "receiverAccount" = Some (Str (js "1000009338067")))
    /\ (between (flatten pdfText) masked_account (lit "Payment Date & Time") = None ->
        get (data r) "receiverAccount" = Some (Str (js "1000009338067")))
    /\ (occurs total_label (flatten pdfText) = false ->
        get (data r) "totalAmount" = Some (Str (js "Unknown")))
    /\ field_reading (flatten pdfText) (lit "Account") (lit "Receiver")
                     (js "Unknown") [] (get (data r) "payerAccount")
    /\ field_reading (flatten pdfText) masked_account (lit "Payment Date & Time")
                     (js "1000009338067") [] (get (data r) "receiverAccount")
    /\ field_reading (flatten pdfText) total_label (lit "Amount in Word")
                     (js "Unknown") (js " ETB") (get (data r) "totalAmount").
Proof.
  intros H1 H2. eexists. split; [apply (@parseFT_returns link transactionId buffer pdfText H1 H2)|].
  cbn [data cbe_record cbe_data get String.eqb Ascii.eqb Bool.eqb].
  split; [|split; [|split; [|split; [|split; [|split]]]]].
  - intros H. now rewrite (@extract_absent _ _ _ H).
  - intros H. now rewrite (@extract_no_pair _ _ _ (@between_absent _ _ _ H)).
  - intros H. now rewrite (@extract_no_pair _ _ _ H).
  - intros H. now rewrite (@extract_absent _ _ _ H).
  - apply fallback_reading. vm_compute. reflexivity.
  - apply fallback_reading. vm_compute. reflexivity.
  - assert (Hc : starts_clean (lit "Amount in Word") = true)
      by (vm_compute; reflexivity).
    split; [|split].
    + intros H. now rewrite (extract_no_pair _ _ _ H).
    + intros v Hb Hv. now rewrite (blank_extracted _ _ _ Hc Hb Hv).
    + intros v Hb Hv.
      assert (Hd : forallb is_dot (trim v) = true).
      { unfold well_formed in Hv. now apply andb_true_iff in Hv as [_ Hv]. }
      rewrite (@extract_first _ _ _ v Hc Hb Hd).
      now rewrite (well_formed_populated _ Hv).
Qed.

(** C4: when, in the flattened text, each label is followed by its anchor
    (first occurrences, letters compared without regard to case) and the
    value between the two is well formed (not blank, on one line), then
    [parseFT] returns the record whose fields are these values, trimmed:
    all eight fields are populated, and [totalAmount] is the total
    followed by [ ETB].  ([receiverAccount] is populated whatever the text
    holds.) *)
Theorem documented_receipt_fields (link transactionId : jsstring)
        (buffer : Buffer) (pdfText : jsstring)
        (payer payerAccount receiver dateTime reference reason total : jsstring) :
  axios_get_arraybuffer link = Ok buffer ->
  pdfParse buffer = Ok pdfText ->
  between (flatten pdfText) (lit "Payer") (lit "Account") = Some payer ->
  between (flatten pdfText) (lit "Account") (lit "Receiver") = Some payerAccount ->
  between (flatten pdfText) (lit "Receiver") (lit "Account") = Some receiver ->
  between (flatten pdfText) (lit "Payment Date & Time") (lit "Reference No")
    = Some dateTime ->
  between (flatten pdfText) reference_label (lit "Reason") = Some reference ->
  between (flatten pdfText) (lit "Reason / Type of service")
          (lit "Transferred Amount") = Some reason ->
  between (flatten pdfText) total_label (lit "Amount in Word") = Some total ->
  forallb well_formed
          [payer; payerAccount; receiver; dateTime; reference; reason; total]
    = true ->
  exists r receiverAccount,
    parseFT axios_get_arraybuffer pdfParse link transactionId = Ok r
    /\ data r =
         [ ("payer", Str (trim payer));
           ("payerAccount", Str (trim payerAccount));
           ("receiver", Str (trim receiver));
           ("receiverAccount", Str receiverAccount);
           ("paymentDateTime", Str (trim dateTime));
           ("referenceNo", Str (trim reference));
           ("reason", Str (trim reason));
           ("totalAmount", Str (trim total ++ js " ETB")%list) ]%string
    /\ forallb (fun kv => populated (snd kv)) (data r) = true.
Proof.
  intros H1 H2 Bp Bpa Br Bd Bref Bre Bt Hwf.
  cbn [forallb] in Hwf.
  repeat (apply andb_true_iff in Hwf as [?W Hwf]).
  assert (Wd : forall v, well_formed v = true -> forallb is_dot (trim v) = true).
  { intros v H. unfold well_formed in H. now apply andb_true_iff in H as [_ H]. }
  pose proof (@or_else_populated
                (extract (flatten pdfText) masked_account (lit "Payment Date & Time"))
                (js "1000009338067") eq_refl) as Hra.
  destruct (or_else (extract (flatten pdfText) masked_account
                             (lit "Payment Date & Time"))
                    (js "1000009338067")) as [|receiverAccount] eqn:Era;
    [discriminate Hra|].
  exists (cbe_record link transactionId (flatten pdfText)), receiverAccount.
  split; [apply (@parseFT_returns link transactionId buffer pdfText H1 H2)|].
  assert (Ed : data (cbe_record link transactionId (flatten pdfText)) =
               [ ("payer", Str (trim payer));
                 ("payerAccount", Str (trim payerAccount));
                 ("receiver", Str (trim receiver));
                 ("receiverAccount", Str receiverAccount);
                 ("paymentDateTime", Str (trim dateTime));
                 ("referenceNo", Str (trim reference));
                 ("reason", Str (trim reason));
                 ("totalAmount", Str (trim total ++ js " ETB")%list) ]%string).
  { cbv beta zeta delta [data cbe_record cbe_data]. rewrite Era.
    erewrite extract_first;
      [|vm_compute; reflexivity|exact Bp|exact (Wd _ W)].
    erewrite extract_first;
      [|vm_compute; reflexivity|exact Bpa|exact (Wd _ W0)].
    erewrite extract_first;
      [|vm_compute; reflexivity|exact Br|exact (Wd _ W1)].
    erewrite extract_first;
      [|vm_compute; reflexivity|exact Bd|exact (Wd _ W2)].
    erewrite extract_first;
      [|vm_compute; reflexivity|exact Bref|exact (Wd _ W3)].
    erewrite extract_first;
      [|vm_compute; reflexivity|exact Bre|exact (Wd _ W4)].
    erewrite extract_first;
      [|vm_compute; reflexivity|exact Bt|exact (Wd _ W5)].
    cbn [or_else].
    rewrite (@well_formed_populated _ W0), (@well_formed_populated _ W5).
    reflexivity. }
  split; [exact Ed|].
  rewrite Ed. cbn [forallb snd populated].
  rewrite (@well_formed_populated _ W), (@well_formed_populated _ W0),
    (@well_formed_populated _ W1), (@well_formed_populated _ W2),
    (@well_formed_populated _ W3), (@well_formed_populated _ W4).
  simpl in Hra. rewrite Hra.
  destruct (trim total); reflexivity.
Qed.
End CBEFields.

Lemma missing_labels_fall_back_witness :
  exists r,
    parseFT (fun _ => Ok (js "Payer ABEBE KEBEDE")) Samples.read_pdf
            (cbe_link (js "FT1")) (js "FT1") = Ok r
    /\ get (data r) "payerAccount" = Some (Str (js "Unknown"))
    /\ get (data r) "receiverAccount" = Some (Str (js "1000009338067"))
    /\ get (data r) "totalAmount" = Some (Str (js "Unknown")).
Proof.
  destruct (@missing_labels_fall_back jsstring
              (fun _ => Ok (js "Payer ABEBE KEBEDE")) Samples.read_pdf
              (cbe_link (js "FT1")) (js "FT1")
              (js "Payer ABEBE KEBEDE") (js "Payer ABEBE KEBEDE")
              eq_refl eq_refl)
    as (r & Hr & Hpa & Hra & _ & Ht & _).
  exists r. split; [exact Hr|]. split; [|split].
  - apply Hpa. vm_compute. reflexivity.
  - apply Hra. vm_compute. reflexivity.
  - apply Ht. vm_compute. reflexivity.
Defined.

(** C5 fails as stated.  In this receipt the payer has no account line
    (nothing but the name stands between [Payer] and [Receiver]) and no
    masked account stands immediately before [Payment Date & Time]; yet
    [payerAccount] is not [Unknown] (the label [Account] matches at the
    account of the receiver, and the word [receiver] comes later), and
    [receiverAccount] is not the fixed account but the text that follows
    the masked account. *)
Lemma missing_labels_counterexample :
  exists r,
    parseFT (fun _ => Ok Samples.receipt_without_payer_account) Samples.read_pdf
            (cbe_link (js "FT1")) (js "FT1") = Ok r
    /\ between (flatten Samples.receipt_without_payer_account)
               (lit "Payer") (lit "Receiver") = Some (js " ABEBE ")
    /\ immediately_before masked_account (lit "Payment Date & Time")
                          (flatten Samples.receipt_without_payer_account) = false
    /\ get (data r) "payerAccount"
       = Some (Str (js "1****8067 ref 77 Payment Date & Time 5/10/2025 Reason paid to the"))
    /\ get (data r) "receiverAccount" = Some (Str (js "ref 77")).
Proof.
  eexists. split; [reflexivity|]. vm_compute. repeat split; reflexivity.
Qed.

Lemma documented_receipt_fields_witness :
  exists r,
    parseFT Samples.serve_pdf Samples.read_pdf
            (cbe_link (js "FT25130ABCDE")) (js "FT25130ABCDE") = Ok r
    /\ get (data r) "payer" = Some (Str (js "ABEBE KEBEDE"))
    /\ get (data r) "paymentDateTime" = Some (Str (js "5/10/2025, 10:30:00 AM"))
    /\ get (data r) "totalAmount" = Some (Str (js "100.00 ETB ETB")).
Proof.
  destruct (@documented_receipt_fields jsstring
              Samples.serve_pdf Samples.read_pdf
              (cbe_link (js "FT25130ABCDE")) (js "FT25130ABCDE")
              Samples.receipt_text Samples.receipt_text
              (js " ABEBE KEBEDE ") (js " 1****1234 ") (js " MOTUMA ADMASU ")
              (js " 5/10/2025, 10:30:00 AM ") (js " FT25130ABCDE ")
              (js " Payment done via Mobile ") (js " 100.00 ETB "))
    as (r & receiverAccount & Hr & Hd & _).
  - reflexivity.
  - reflexivity.
  - vm_compute. reflexivity.
  - vm_compute. reflexivity.
  - vm_compute. reflexivity.
  - vm_compute. reflexivity.
  - vm_compute. reflexivity.
  - vm_compute. reflexivity.
  - vm_compute. reflexivity.
  - vm_compute. reflexivity.
  - exists r. split; [exact Hr|]. rewrite Hd. vm_compute. repeat split; reflexivity.
Defined.

(** X1: the reading of a field, as a property of [extract] alone: the trimmed
    text between the first occurrence of the label and the first occurrence
    of the anchor after it, when that text stays on one line; [null] when
    the label is not followed by the anchor anywhere. *)
Theorem extract_is_first_anchor_pair (text : jsstring) (label after : list atom) :
  (forall v,
      starts_clean after = true ->
      between text label after = Some v ->
      forallb is_dot (trim v) = true ->
      extract text label after = Str (trim v))
  /\ (between text label after = None -> extract text label after = Null).
Proof.
  split.
  - intros v. apply extract_first.
  - apply extract_no_pair.
Qed.

Lemma extract_is_first_anchor_pair_witness :
  extract (js "Commercial Bank PAYER  Abebe Kebede  account 1****1234")
          (lit "Payer") (lit "Account")
    = Str (js "Abebe Kebede")
  /\ extract (js "Commercial Bank") (lit "Payer") (lit "Account") = Null.
Proof.
  split.
  - apply (proj1 (extract_is_first_anchor_pair
                    (js "Commercial Bank PAYER  Abebe Kebede  account 1****1234")
                    (lit "Payer") (lit "Account")) (js "  Abebe Kebede  ")).
    + vm_compute. reflexivity.
    + vm_compute. reflexivity.
    + vm_compute. reflexivity.
  - apply (proj2 (extract_is_first_anchor_pair
                    (js "Commercial Bank") (lit "Payer") (lit "Account"))).
    vm_compute. reflexivity.
Defined.

(** ** The samples, evaluated *)

Example flatten_receipt_lines :
  flatten (js "Payer  ABEBE
Account 1****1234") = js "Payer ABEBE Account 1****1234".
Proof. vm_compute. reflexivity. Qed.

(** On the sample receipt the label of [receiverAccount] matches at the
    account of the payer, and the field is the text from there to the
    payment date. *)
Example receiver_account_of_receipt :
  get (cbe_data (flatten Samples.receipt_text)) "receiverAccount"
    = Some (Str (js "Receiver MOTUMA ADMASU Account 1****8067"))
  /\ get (cbe_data (js "Receiver MOTUMA ADMASU Account 1****8067 Payment Date & Time"))
         "receiverAccount"
    = Some (Str (js "1000009338067")).
Proof. vm_compute. split; reflexivity. Qed.

(** A line break inside a label cell keeps [:contains] from finding the
    label, though [.text()] of the cell shows it. *)
Example label_with_line_break :
  Cheerio.textContent (cell_node Samples.broken_label) = payer_name_label
  /\ cell_after (table_page Samples.receipt_context
                            [Item [Item Samples.broken_label; Samples.td [] "Abebe"]])
                payer_name_label = []
  /\ cell_after (table_page Samples.receipt_context
                            [Item [Item Samples.broken_label; Samples.td [] "Abebe"]])
                (js "Payer Name") = js "Abebe".
Proof. vm_compute. repeat split; reflexivity. Qed.

(** A response whose body is the JSON text [123] is answered with status
    500: [html.includes] is not a function. *)
Example number_body_fails :
  handler Samples.serve_pdf Samples.read_pdf Samples.serve_number
          Samples.engine_message Samples.load_page 0 (Samples.a_request "CE1") []
  = (Failure 500 [ ("error", js "Failed to process transaction");
                   ("detail", js "html.includes is not a function");
                   ("transactionId", js "CE1") ]%string,
     []).
Proof. vm_compute. reflexivity. Qed.

Example handler_logs_success :
  exists result entry,
    handler Samples.serve_pdf Samples.read_pdf Samples.serve_page
            Samples.engine_message Samples.load_page
            1700000000000 (Samples.a_request "FT25130ABCDE") []
      = (Result result, [entry])
    /\ log_ip entry = js "127.0.0.1"
    /\ log_userAgent entry = js "curl/8.5.0"
    /\ log_timestamp entry = 1700010800000%Z.
Proof. eexists. eexists. split; [reflexivity|]. vm_compute. repeat split; reflexivity. Qed.

(** * Further properties *)

(** ** Whitespace normalization, continued *)

Lemma flatten_unfold (s : jsstring) : flatten s = collapse (unbreak s).
Proof. reflexivity. Qed.

Lemma visible_cons (x : N) (s : jsstring) :
  visible (x :: s) = if is_space x then visible s else x :: visible s.
Proof. unfold visible. cbn [filter]. now destruct (is_space x). Qed.

Lemma visible_unbreak (n : nat) :
  forall s, (length s <= n)%nat ->
    visible (unbreak s) = visible s /\ (length (unbreak s) <= length s)%nat.
Proof.
  induction n as [|n IH]; intros s L.
  - destruct s; [now split|simpl in L; lia].
  - destruct s as [|x s]; [now split|].
    cbn [length] in L. rewrite unbreak_cons.
    destruct s as [|y r].
    + destruct (N.eqb_spec x 10) as [->|H]; now split.
    + cbn [length] in L.
      destruct ((x =? 13) && (y =? 10))%N eqn:E1.
      * apply andb_true_iff in E1 as [Ex Ey].
        apply N.eqb_eq in Ex, Ey. subst x y.
        destruct (IH r) as [Hv Hl]; [lia|].
        split; [|cbn [length]; lia].
        rewrite !visible_cons. exact Hv.
      * destruct (IH (y :: r)) as [Hv Hl]; [cbn [length]; lia|].
        destruct (N.eqb_spec x 10) as [->|H10].
        -- split; [|cbn [length] in *; lia].
           rewrite (visible_cons 32), (visible_cons 10). exact Hv.
        -- split; [|cbn [length] in *; lia].
           rewrite (visible_cons x), (visible_cons x (y :: r)). now rewrite Hv.
Qed.

Lemma visible_blank (w s : jsstring) :
  blank w = true -> visible (w ++ s) = visible s.
Proof.
  induction w as [|x w IH]; [reflexivity|].
  cbn [blank forallb]. intros H. apply andb_true_iff in H as [Hx Hw].
  unfold visible in *. cbn [app filter]. rewrite Hx. cbn [negb]. now apply IH.
Qed.

Lemma visible_collapse (n : nat) :
  forall s, (length s <= n)%nat ->
    visible (collapse s) = visible s /\ (length (collapse s) <= length s)%nat.
Proof.
  induction n as [|n IH]; intros s L.
  - destruct s; [now split|simpl in L; lia].
  - destruct s as [|x s]; [now split|].
    simpl in L. rewrite collapse_cons.
    destruct (is_space x && head_space s) eqn:E.
    + apply andb_true_iff in E as [Hx _].
      destruct (trimStart_suffix s) as (w & Es & Hw).
      assert (Lt : (length (trimStart s) <= length s)%nat).
      { apply (f_equal (@length N)) in Es. rewrite length_app in Es. lia. }
      destruct (IH (trimStart s)) as [Hv Hl]; [lia|].
      split; [|cbn [length]; lia].
      transitivity (visible (trimStart s)).
      * unfold visible in *. cbn [filter]. exact Hv.
      * unfold visible at 2. cbn [filter]. rewrite Hx. cbn [negb].
        fold (visible s). rewrite Es at 2. now rewrite visible_blank.
    + destruct (IH s) as [Hv Hl]; [lia|].
      split; [|cbn [length]; lia].
      unfold visible in *. cbn [filter]. now rewrite Hv.
Qed.

Lemma unbreak_fixed (s : jsstring) :
  existsb (N.eqb 10) s = false -> unbreak s = s.
Proof.
  induction s as [|x s IH]; [reflexivity|].
  cbn [existsb]. intros H. apply orb_false_iff in H as [Hx Hs].
  rewrite N.eqb_sym in Hx.
  rewrite unbreak_cons, Hx, (IH Hs).
  destruct s as [|y r]; [reflexivity|].
  cbn [existsb] in Hs. apply orb_false_iff in Hs as [Hy _].
  rewrite N.eqb_sym in Hy. now rewrite Hy, andb_false_r.
Qed.

Lemma collapse_fixed (s : jsstring) :
  adjacent_spaces s = false -> collapse s = s.
Proof.
  induction s as [|x s IH]; [reflexivity|].
  intros H. rewrite collapse_cons.
  destruct s as [|y r].
  - cbn [head_space]. now rewrite andb_false_r.
  - rewrite adjacent_spaces_cons in H. apply orb_false_iff in H as [Hxy Hr].
    cbn [head_space]. now rewrite Hxy, (IH Hr).
Qed.

Lemma flatten_no_line_feed (s : jsstring) : existsb (N.eqb 10) (flatten s) = false.
Proof.
  destruct (existsb (N.eqb 10) (flatten s)) eqn:E; [|reflexivity].
  apply existsb_exists in E as (c & Hc & Ec).
  apply N.eqb_eq in Ec. subst c.
  unfold flatten, replace in Hc.
  apply replace_from_elements in Hc as [H|H].
  - vm_compute in H. destruct H as [H|[]]. discriminate H.
  - now apply line_breaks_replaced in H.
Qed.

Lemma flatten_no_adjacent (s : jsstring) : adjacent_spaces (flatten s) = false.
Proof. exact (proj1 (@collapse_invariant _ _ (le_n _))). Qed.

(** X2: flattening a flattened text changes nothing, and the texts that
    flattening leaves as they are are exactly those without a line feed and
    without two whitespace code units side by side. *)
Theorem flatten_fixed_points (s : jsstring) :
  flatten (flatten s) = flatten s
  /\ (flatten s = s <->
      existsb (N.eqb 10) s = false /\ adjacent_spaces s = false).
Proof.
  assert (F : forall t, existsb (N.eqb 10) t = false ->
                        adjacent_spaces t = false -> flatten t = t).
  { intros t H1 H2. rewrite flatten_unfold, (unbreak_fixed _ H1).
    now apply collapse_fixed. }
  split.
  - apply F; [apply flatten_no_line_feed|apply flatten_no_adjacent].
  - split.
    + intros E. rewrite <- E.
      split; [apply flatten_no_line_feed|apply flatten_no_adjacent].
    + intros [H1 H2]. now apply F.
Qed.

Lemma flatten_fixed_points_witness :
  flatten (js "Payer ABEBE Account 1****1234") = js "Payer ABEBE Account 1****1234".
Proof.
  apply (proj2 (proj2 (flatten_fixed_points (js "Payer ABEBE Account 1****1234")))).
  vm_compute. split; reflexivity.
Defined.

(** X3: flattening keeps every code unit that is not whitespace, in its
    place among the others, and never makes the text longer. *)
Theorem flatten_keeps_visible (s : jsstring) :
  visible (flatten s) = visible s /\ (length (flatten s) <= length s)%nat.
Proof.
  rewrite flatten_unfold.
  destruct (@visible_unbreak _ s (le_n _)) as [Hv Hl].
  destruct (@visible_collapse _ (unbreak s) (le_n _)) as [Hv' Hl'].
  split; [now rewrite Hv', Hv|lia].
Qed.

(** ** The shape of an extracted value *)

Lemma lazy_sound_all (a : atom) (k : jsstring -> option result)
      (u g rest : jsstring) :
  lazy_group true a k u = Some (g, rest) ->
  forallb (atom_match true a) g = true.
Proof.
  revert g; induction u as [|x u IH]; intros g; rewrite lazy_group_eq.
  - destruct (k []) as [[c r]|]; [|discriminate].
    intros H; now inversion H.
  - destruct (k (x :: u)) as [[c r]|].
    + intros H; now inversion H.
    + destruct (atom_match true a x) eqn:Hx; [|discriminate].
      destruct (lazy_group true a k u) as [[g' r']|] eqn:E'; [|discriminate].
      intros H; inversion H; subst.
      cbn [forallb]. now rewrite Hx, (IH _ eq_refl).
Qed.

Lemma capture_shape (after : list atom) (u g r : jsstring) :
  run true (Star ws :: LazyGroup dot :: Star ws :: map One after) u = Some (g, r) ->
  forallb is_dot g = true /\ exists w t, u = w ++ g ++ t.
Proof.
  cbn [run]. intros H.
  apply star_sound in H as (w & t & -> & _ & H).
  pose proof (lazy_sound_all _ _ _ H) as Hd.
  apply lazy_sound in H as (t' & c & -> & _).
  split; [exact Hd|]. now exists w, t'.
Qed.

Lemma forallb_trim (f : N -> bool) (g : jsstring) :
  forallb f g = true -> forallb f (trim g) = true.
Proof.
  destruct (trim_decompose g) as (w1 & w2 & E & _).
  intros H. rewrite E, !forallb_app in H.
  apply andb_true_iff in H as [_ H]. now apply andb_true_iff in H as [H _].
Qed.

Lemma extract_shape (text : jsstring) (label after : list atom) (v : jsstring) :
  extract text label after = Str v ->
  (exists before rest, text = before ++ v ++ rest)
  /\ trim v = v
  /\ forallb is_dot v = true.
Proof.
  unfold extract, pattern.
  destruct (search true _ text) as [g|] eqn:Es; [|discriminate].
  intros H; inversion H; subst v; clear H.
  apply search_sound in Es as (i & r & _ & Hr).
  cbn [app] in Hr. apply capture_shape in Hr as (Hd & w & t & Eu).
  split; [|split; [apply trim_idempotent|now apply forallb_trim]].
  destruct (trim_decompose g) as (w1 & w2 & Eg & _).
  exists (firstn (length label + i) text ++ w ++ w1), (w2 ++ t).
  rewrite <- (firstn_skipn (length label + i) text) at 1.
  rewrite Eu. rewrite Eg at 1.
  repeat rewrite <- app_assoc. reflexivity.
Qed.

(** X4: a value that [extract] returns stands in the text as it is, has no
    whitespace at either end and holds no line terminator. *)
Theorem extracted_value_shape (text : jsstring) (label after : list atom)
        (v : jsstring) :
  extract text label after = Str v ->
  (exists before rest, text = before ++ v ++ rest)
  /\ trim v = v
  /\ forallb is_dot v = true.
Proof. apply extract_shape. Qed.

Lemma extracted_value_shape_witness :
  (exists before rest,
      js "Payer  ABEBE KEBEDE  Account 1" = before ++ js "ABEBE KEBEDE" ++ rest)
  /\ trim (js "ABEBE KEBEDE") = js "ABEBE KEBEDE"
  /\ forallb is_dot (js "ABEBE KEBEDE") = true.
Proof.
  apply (@extracted_value_shape (js "Payer  ABEBE KEBEDE  Account 1")
           (lit "Payer") (lit "Account") (js "ABEBE KEBEDE")).
  vm_compute. reflexivity.
Defined.

(** ** Tidy values *)

Lemma adjacent_spaces_app_r (a b : jsstring) :
  adjacent_spaces (a ++ b) = false -> adjacent_spaces b = false.
Proof.
  induction a as [|x a IH]; [trivial|].
  cbn [app]. destruct (a ++ b) as [|y r] eqn:E.
  - intros _. destruct a; [|discriminate E]. cbn [app] in E. now subst b.
  - rewrite adjacent_spaces_cons. intros H.
    apply orb_false_iff in H as [_ H]. now apply IH.
Qed.

Lemma adjacent_spaces_app_l (a b : jsstring) :
  adjacent_spaces (a ++ b) = false -> adjacent_spaces a = false.
Proof.
  induction a as [|x a IH]; [reflexivity|].
  destruct a as [|y a]; [reflexivity|].
  cbn [app]. rewrite !adjacent_spaces_cons. intros H.
  apply orb_false_iff in H as [H1 H2].
  rewrite H1. cbn [orb]. now apply IH.
Qed.

Lemma ends_clean_tail (x : N) (a : jsstring) : ends_clean (x :: a) -> ends_clean a.
Proof.
  intros H t1 t2 E Hb. apply (H (x :: t1) t2); [now rewrite E|exact Hb].
Qed.

Lemma adjacent_spaces_app (a b : jsstring) :
  adjacent_spaces a = false -> ends_clean a -> adjacent_spaces b = false ->
  adjacent_spaces (a ++ b) = false.
Proof.
  intros Ha He Hb. induction a as [|x a IH]; [exact Hb|].
  destruct a as [|y a].
  - assert (Hx : is_space x = false).
    { destruct (is_space x) eqn:Hx; [|reflexivity].
      assert (X : [x] = []) by (apply (He [] [x] eq_refl); simpl; now rewrite Hx).
      discriminate X. }
    cbn [app]. destruct b as [|z b]; [reflexivity|].
    now rewrite adjacent_spaces_cons, Hx, Hb.
  - rewrite adjacent_spaces_cons in Ha. apply orb_false_iff in Ha as [H1 H2].
    cbn [app]. rewrite adjacent_spaces_cons, H1. cbn [orb].
    apply IH; [exact H2|now apply ends_clean_tail in He].
Qed.

Lemma ends_clean_snoc (a : jsstring) (c : N) :
  is_space c = false -> ends_clean (a ++ [c]).
Proof.
  intros Hc. replace (a ++ [c]) with (rev (c :: rev a))
    by (cbn [rev]; now rewrite rev_involutive).
  now apply ends_clean_rev.
Qed.

Lemma trim_shape (t : jsstring) :
  trim t = t -> head_space t = false /\ ends_clean t.
Proof.
  intros E. destruct (trim_decompose t) as (w1 & w2 & _ & _ & _ & Hh & He).
  rewrite E in Hh, He. now split.
Qed.

Lemma tidy_suffix (t : jsstring) :
  tidy t -> truthy t = true -> tidy (t ++ js " ETB").
Proof.
  intros (Ht & Hd & Ha) Hne.
  destruct (trim_shape Ht) as [Hh He].
  change (js " ETB") with ([32; 69; 84]%N ++ [66%N]).
  repeat split.
  - apply trim_fixed.
    + destruct t; [discriminate Hne|exact Hh].
    + rewrite app_assoc. now apply ends_clean_snoc.
  - rewrite forallb_app, Hd. reflexivity.
  - apply adjacent_spaces_app; [exact Ha|exact He|reflexivity].
Qed.

Lemma extract_tidy (text : jsstring) (label after : list atom) :
  adjacent_spaces text = false -> tidy_value (extract text label after).
Proof.
  intros Ha. destruct (extract text label after) as [|v] eqn:E; [exact I|].
  destruct (extract_shape _ _ _ E) as ((before & rest & Et) & Ht & Hd).
  repeat split; [exact Ht|exact Hd|].
  rewrite Et in Ha.
  apply adjacent_spaces_app_r in Ha. now apply adjacent_spaces_app_l in Ha.
Qed.

Lemma or_else_tidy (v : value) (d : jsstring) :
  tidy_value v -> tidy d -> tidy_value (or_else v d).
Proof.
  intros Hv Hd. destruct v as [|s]; [exact Hd|].
  cbn [or_else]. now destruct (truthy s).
Qed.

Lemma tidy_Unknown : tidy (js "Unknown").
Proof. vm_compute. repeat split; reflexivity. Qed.

Lemma tidy_account : tidy (js "1000009338067").
Proof. vm_compute. repeat split; reflexivity. Qed.

(** X5: every field of a record that [parseFT] returns is [null] or a
    string without whitespace at either end, without a line terminator and
    without two whitespace code units side by side. *)
Theorem cbe_values_tidy
        (Buffer : Type) (axios_get_arraybuffer : jsstring -> outcome Buffer)
        (pdfParse : Buffer -> outcome jsstring)
        (url id : jsstring) (r : CanonicalPaymentRecord) :
  parseFT axios_get_arraybuffer pdfParse url id = Ok r ->
  Forall (fun kv => tidy_value (snd kv)) (data r).
Proof.
  intros H. apply parseFT_inv in H as (buffer & pdfText & _ & _ & ->).
  pose proof (flatten_no_adjacent pdfText) as Ha.
  cbv beta zeta delta [data cbe_record cbe_data].
  repeat (apply Forall_cons); try apply Forall_nil; cbn [snd];
    try (apply extract_tidy; exact Ha);
    try (apply or_else_tidy; [apply extract_tidy; exact Ha|]).
  - apply tidy_Unknown.
  - apply tidy_account.
  - pose proof (@extract_tidy (flatten pdfText) total_label
                              (lit "Amount in Word") Ha) as Ht.
    destruct (extract (flatten pdfText) total_label (lit "Amount in Word"))
      as [|t]; [apply tidy_Unknown|].
    destruct (truthy t) eqn:Et; [|apply tidy_Unknown].
    now apply tidy_suffix.
Qed.

Lemma cbe_values_tidy_witness :
  Forall (fun kv => tidy_value (snd kv))
         (data (cbe_record (cbe_link (js "FT1")) (js "FT1")
                           (flatten Samples.receipt_text))).
Proof.
  apply (@cbe_values_tidy jsstring Samples.serve_pdf Samples.read_pdf
           (cbe_link (js "FT1")) (js "FT1")).
  reflexivity.
Defined.

Lemma or_else_trimmed (s d : jsstring) :
  trim s = s -> trim d = d -> trimmed_value (or_else (Str s) d).
Proof. intros Hs Hd. cbn [or_else]. now destruct (truthy s). Qed.

(** X6: every field of a record that [parseTelebirr] returns is a string
    without whitespace at either end. *)
Theorem telebirr_values_trimmed
        (axios_get : jsstring -> outcome jsvalue)
        (type_error : jsvalue -> jsstring)
        (cheerio_load : jsvalue -> outcome Cheerio.document)
        (url id : jsstring) (r : CanonicalPaymentRecord) :
  parseTelebirr axios_get type_error cheerio_load url id = Ok r ->
  Forall (fun kv => trimmed_value (snd kv)) (data r).
Proof.
  intros H. apply parseTelebirr_inv in H as (html & d & _ & _ & _ & ->).
  cbv beta zeta delta [data telebirr_record telebirr_data].
  repeat (apply Forall_cons); try apply Forall_nil; cbn [snd];
    try (unfold trimmed_value, cell_after, receipt_number, payment_date;
         apply trim_idempotent).
  apply or_else_trimmed.
  - unfold cell_after. apply trim_idempotent.
  - vm_compute. reflexivity.
Qed.

Lemma telebirr_values_trimmed_witness :
  Forall (fun kv => trimmed_value (snd kv))
         (data (telebirr_record (telebirr_link (js "CE1")) (js "CE1")
                                Samples.receipt_page)).
Proof.
  apply (@telebirr_values_trimmed Samples.serve_page Samples.engine_message
           Samples.load_page
           (telebirr_link (js "CE1")) (js "CE1")).
  vm_compute. reflexivity.
Defined.



(** ** Links *)

(** X8: two identifiers that are fetched from the same link are the same
    identifier, also across the two networks. *)
Theorem links_identify_transactions (a b : jsstring) :
  snd (route a) = snd (route b) -> a = b.
Proof.
  unfold route.
  destruct (startsWith a (js "FT")), (startsWith b (js "FT"));
    cbn [snd]; unfold cbe_link, telebirr_link; intros H.
  - apply app_inv_head in H. now apply app_inv_tail in H.
  - vm_compute in H. discriminate H.
  - vm_compute in H. discriminate H.
  - now apply app_inv_head in H.
Qed.

Lemma links_identify_transactions_witness : js "FT25130ABCDE" = js "FT25130ABCDE".
Proof.
  apply (@links_identify_transactions (js "FT25130ABCDE") (js "FT25130ABCDE")).
  reflexivity.
Defined.

(** ** The handler, continued *)

Lemma or_default_truthy (h : option jsstring) (d : jsstring) :
  truthy d = true -> truthy (or_default h d) = true.
Proof.
  intros Hd. destruct h as [s|]; cbn [or_default]; [|exact Hd].
  destruct (truthy s) eqn:E; [exact E|exact Hd].
Qed.

Section HandlerInvariants.
Variable Buffer : Type.
Variable axios_get_arraybuffer : jsstring -> outcome Buffer.
Variable pdfParse : Buffer -> outcome jsstring.
Variable axios_get : jsstring -> outcome jsvalue.
Variable type_error : jsvalue -> jsstring.
Variable cheerio_load : jsvalue -> outcome Cheerio.document.

Let resolve := resolve axios_get_arraybuffer pdfParse axios_get type_error cheerio_load.
Let handler := handler axios_get_arraybuffer pdfParse axios_get type_error cheerio_load.

Lemma resolve_ok (id url : jsstring) (r : CanonicalPaymentRecord) :
  resolve id = Ok (url, r) ->
  route id = (match startsWith id (js "FT") with
              | true => CBE
              | false => Telebirr
              end, url)
  /\ transactionId r = id
  /\ link r = url
  /\ source r = network_name (fst (route id)).
Proof.
  unfold resolve, Server.resolve, route, bind.
  destruct (startsWith id (js "FT")).
  - destruct (parseFT axios_get_arraybuffer pdfParse (cbe_link id) id)
      as [r'|] eqn:E; [|discriminate].
    intros H; inversion H; subst.
    apply parseFT_inv in E as (buffer & pdfText & _ & _ & ->).
    repeat split.
  - destruct (parseTelebirr axios_get type_error cheerio_load (telebirr_link id) id)
      as [r'|] eqn:E; [|discriminate].
    intros H; inversion H; subst.
    apply parseTelebirr_inv in E as (html & d & _ & _ & _ & ->).
    repeat split.
Qed.

(** X9: the record of a lookup that succeeds carries the identifier of the
    request and the link that was fetched, which is the link of the route,
    and its [source] names the network of the route. *)
Theorem resolved_record_echoes_request
        (id url : jsstring) (r : CanonicalPaymentRecord) :
  resolve id = Ok (url, r) ->
  url = snd (route id)
  /\ transactionId r = id
  /\ link r = url
  /\ source r = network_name (fst (route id)).
Proof.
  intros H. destruct (resolve_ok _ H) as (Hr & Hi & Hl & Hs).
  repeat split; try assumption. now rewrite Hr.
Qed.

(** X11: whatever the log holds, a request leaves its rows as they were
    and adds at most one row; and when every row was consistent with its
    request (the link is the link of the route of its identifier, the stored
    record carries that identifier, that link and the network of the route,
    and neither the address nor the user agent is empty), every row still
    is. *)
Theorem log_stays_consistent (now : Z) (req : request) (logs : list LogEntry) :
  (exists new,
      snd (handler now req logs) = logs ++ new /\ (length new <= 1)%nat)
  /\ (Forall entry_ok logs -> Forall entry_ok (snd (handler now req logs))).
Proof.
  unfold handler, Server.handler.
  destruct (Server.resolve _ _ _ _ _ (param_transactionId req))
    as [[url r]|message] eqn:E; cbn [snd].
  - split.
    + eexists. split; [reflexivity|]. cbn [length]. lia.
    + intros Hlogs.
      unfold logToDatabase. apply Forall_app. split; [exact Hlogs|].
      apply Forall_cons; [|apply Forall_nil].
      destruct (resolve_ok _ E) as (Hr & Hi & Hl & Hs).
      unfold entry_ok.
      cbn [log_transactionId log_link log_response log_ip log_userAgent].
      repeat split; try assumption.
      * apply or_default_truthy, or_default_truthy. reflexivity.
      * apply or_default_truthy. reflexivity.
  - split; [|intros Hlogs; exact Hlogs]. exists [].
    split; [now rewrite app_nil_r|cbn [length]; lia].
Qed.
End HandlerInvariants.

Lemma resolved_record_echoes_request_witness :
  exists r,
    resolve Samples.serve_pdf Samples.read_pdf Samples.serve_page
            Samples.engine_message Samples.load_page
            (js "FT25130ABCDE")
      = Ok (js "https://apps.cbe.com.et:100/?id=FT25130ABCDEW09338067", r)
    /\ transactionId r = js "FT25130ABCDE"
    /\ source r = js "CBE".
Proof.
  eexists. split; [vm_compute; reflexivity|].
  destruct (@resolved_record_echoes_request jsstring
              Samples.serve_pdf Samples.read_pdf Samples.serve_page
              Samples.engine_message Samples.load_page
              (js "FT25130ABCDE")
              (js "https://apps.cbe.com.et:100/?id=FT25130ABCDEW09338067")
              (cbe_record (cbe_link (js "FT25130ABCDE")) (js "FT25130ABCDE")
                          (flatten Samples.receipt_text)))
    as (_ & Hi & _ & Hs).
  - vm_compute. reflexivity.
  - split; [exact Hi|]. vm_compute. reflexivity.
Defined.

Lemma log_stays_consistent_witness :
  Forall entry_ok
         (snd (handler Samples.serve_pdf Samples.read_pdf Samples.serve_page
                       Samples.engine_message Samples.load_page 1700000000000
                       (Samples.a_request "CE12345678")
                       (snd (handler Samples.serve_pdf Samples.read_pdf
                                     Samples.serve_page Samples.engine_message
                                     Samples.load_page 0
                                     (Samples.a_request "FT25130ABCDE") [])))).
Proof.
  apply (proj2 (@log_stays_consistent jsstring Samples.serve_pdf Samples.read_pdf
                  Samples.serve_page Samples.engine_message Samples.load_page
                  1700000000000 (Samples.a_request "CE12345678")
                  (snd (handler Samples.serve_pdf Samples.read_pdf
                                Samples.serve_page Samples.engine_message
                                Samples.load_page 0
                                (Samples.a_request "FT25130ABCDE") [])))).
  apply (proj2 (@log_stays_consistent jsstring Samples.serve_pdf Samples.read_pdf
                  Samples.serve_page Samples.engine_message Samples.load_page
                  0 (Samples.a_request "FT25130ABCDE") [])).
  apply Forall_nil.
Defined.

(** ** The case of the letters of a receipt *)

Ltac decide_codes :=
  repeat match goal with
         | |- context [N.eqb ?a ?b] => destruct (N.eqb_spec a b); [lia|]
         end;
  repeat match goal with
         | |- context [N.leb ?a ?b] => destruct (N.leb_spec a b)
         end;
  try reflexivity; try lia.

Lemma letter_classes (z : N) :
  (65 <= z <= 122)%N ->
  is_space z = false /\ is_line_terminator z = false /\ is_digit z = false.
Proof.
  intros H. unfold is_space, is_line_terminator, is_digit.
  repeat split; decide_codes.
Qed.

Lemma same_letter_cases (x y : N) :
  canonicalize x = canonicalize y ->
  x = y \/ ((65 <= x <= 122)%N /\ (65 <= y <= 122)%N).
Proof.
  unfold canonicalize.
  destruct (N.leb_spec 97 x), (N.leb_spec x 122), (N.leb_spec 97 y),
    (N.leb_spec y 122); cbn [andb]; intros Hc; lia.
Qed.

Lemma same_letter_space (x y : N) :
  canonicalize x = canonicalize y -> is_space x = is_space y.
Proof.
  intros H. destruct (same_letter_cases _ _ H) as [->|[Hx Hy]]; [reflexivity|].
  destruct (letter_classes Hx) as (-> & _), (letter_classes Hy) as (-> & _).
  reflexivity.
Qed.

Lemma respects_Chr (c : N) : respects true (Chr c).
Proof. intros x y H. cbn [atom_match]. now rewrite H. Qed.

Lemma respects_control (c : N) : (c < 65)%N -> respects false (Chr c).
Proof.
  intros Hc x y H. cbn [atom_match].
  destruct (same_letter_cases _ _ H) as [->|[Hx Hy]]; [reflexivity|].
  destruct (N.eqb_spec x c), (N.eqb_spec y c); try reflexivity; lia.
Qed.

Lemma respects_ws (ignoreCase : bool) : respects ignoreCase ws.
Proof. intros x y H. cbn [atom_match ws]. now apply same_letter_space. Qed.

Lemma respects_dot (ignoreCase : bool) : respects ignoreCase dot.
Proof.
  intros x y H. cbn [atom_match dot]. unfold is_dot.
  destruct (same_letter_cases _ _ H) as [->|[Hx Hy]]; [reflexivity|].
  destruct (letter_classes Hx) as (_ & -> & _), (letter_classes Hy) as (_ & -> & _).
  reflexivity.
Qed.

Lemma respects_digit (ignoreCase : bool) : respects ignoreCase digit.
Proof.
  intros x y H. cbn [atom_match digit].
  destruct (same_letter_cases _ _ H) as [->|[Hx Hy]]; [reflexivity|].
  destruct (letter_classes Hx) as (_ & _ & ->), (letter_classes Hy) as (_ & _ & ->).
  reflexivity.
Qed.

Lemma same_letters_refl (s : jsstring) : same_letters s s.
Proof. induction s; constructor; auto. Qed.

Lemma same_letters_rev (s t : jsstring) :
  same_letters s t -> same_letters (rev s) (rev t).
Proof.
  induction 1 as [|x y s t Hxy H IH]; [constructor|].
  cbn [rev]. apply Forall2_app; [exact IH|].
  constructor; [exact Hxy|constructor].
Qed.

Lemma same_letters_trimStart (s t : jsstring) :
  same_letters s t -> same_letters (trimStart s) (trimStart t).
Proof.
  induction 1 as [|x y s t Hxy H IH]; [constructor|].
  cbn [trimStart]. rewrite (same_letter_space _ _ Hxy).
  destruct (is_space y); [exact IH|now constructor].
Qed.

Lemma same_letters_trim (s t : jsstring) :
  same_letters s t -> same_letters (trim s) (trim t).
Proof.
  intros H. unfold trim, trimEnd.
  now apply same_letters_rev, same_letters_trimStart, same_letters_rev,
    same_letters_trimStart.
Qed.

Section SameLetters.
Variable ignoreCase : bool.

Lemma star_eq (a : atom) (k : jsstring -> option result) (s : jsstring) :
  star ignoreCase a k s =
  match s with
  | x :: s' =>
      if atom_match ignoreCase a x
      then match star ignoreCase a k s' with
           | Some r => Some r
           | None => k s
           end
      else k s
  | [] => k s
  end.
Proof. destruct s; reflexivity. Qed.

Lemma lazy_eq (a : atom) (k : jsstring -> option result) (s : jsstring) :
  lazy_group ignoreCase a k s =
  match k s with
  | Some (_, rest) => Some ([], rest)
  | None =>
      match s with
      | x :: s' =>
          if atom_match ignoreCase a x
          then match lazy_group ignoreCase a k s' with
               | Some (g, rest) => Some (x :: g, rest)
               | None => None
               end
          else None
      | [] => None
      end
  end.
Proof. destruct s; reflexivity. Qed.

Lemma one_same (a : atom) (k k' : jsstring -> option result) :
  respects ignoreCase a -> same_continuation k k' ->
  same_continuation (one ignoreCase a k) (one ignoreCase a k').
Proof.
  intros Ha Hk s t H. destruct H as [|x y s t Hxy H]; [exact I|].
  cbn [one]. rewrite (Ha _ _ Hxy).
  destruct (atom_match ignoreCase a y); [now apply Hk|exact I].
Qed.

Lemma opt_same (a : atom) (k k' : jsstring -> option result) :
  respects ignoreCase a -> same_continuation k k' ->
  same_continuation (opt ignoreCase a k) (opt ignoreCase a k').
Proof.
  intros Ha Hk s t H. unfold opt.
  pose proof (one_same Ha Hk H) as Ho.
  pose proof (Hk _ _ H) as Hs.
  destruct (one ignoreCase a k s) as [[g r]|],
    (one ignoreCase a k' t) as [[g' r']|]; try exact Ho; try contradiction.
  exact Hs.
Qed.

Lemma star_same (a : atom) (k k' : jsstring -> option result) :
  respects ignoreCase a -> same_continuation k k' ->
  same_continuation (star ignoreCase a k) (star ignoreCase a k').
Proof.
  intros Ha Hk s t H.
  induction H as [|x y s t Hxy H IH].
  - rewrite !star_eq. apply Hk. constructor.
  - rewrite (star_eq a k (x :: s)), (star_eq a k' (y :: t)).
    rewrite (Ha _ _ Hxy).
    assert (Hs : same_result (k (x :: s)) (k' (y :: t)))
      by (apply Hk; now constructor).
    destruct (atom_match ignoreCase a y); [|exact Hs].
    destruct (star ignoreCase a k s) as [[g r]|],
      (star ignoreCase a k' t) as [[g' r']|]; try exact IH; try contradiction.
    exact Hs.
Qed.

Lemma lazy_same (a : atom) (k k' : jsstring -> option result) :
  respects ignoreCase a -> same_continuation k k' ->
  same_continuation (lazy_group ignoreCase a k) (lazy_group ignoreCase a k').
Proof.
  intros Ha Hk s t H.
  induction H as [|x y s t Hxy H IH].
  - rewrite !lazy_eq.
    pose proof (Hk [] [] (Forall2_nil _)) as Hs.
    destruct (k []) as [[g r]|], (k' []) as [[g' r']|]; try contradiction.
    + destruct Hs as [_ Hs]. split; [constructor|exact Hs].
    + exact I.
  - rewrite (lazy_eq a k (x :: s)), (lazy_eq a k' (y :: t)).
    assert (Hs : same_result (k (x :: s)) (k' (y :: t)))
      by (apply Hk; now constructor).
    destruct (k (x :: s)) as [[g r]|], (k' (y :: t)) as [[g' r']|];
      try contradiction.
    + destruct Hs as [_ Hs]. split; [constructor|exact Hs].
    + rewrite (Ha _ _ Hxy).
      destruct (atom_match ignoreCase a y); [|exact I].
      destruct (lazy_group ignoreCase a k s) as [[g r]|],
        (lazy_group ignoreCase a k' t) as [[g' r']|]; try contradiction.
      * destruct IH as [Hg Hr]. split; [now constructor|exact Hr].
      * exact I.
Qed.

Lemma run_same (p : list item) :
  Forall (fun i => respects ignoreCase (item_atom i)) p ->
  same_continuation (run ignoreCase p) (run ignoreCase p).
Proof.
  induction 1 as [|i p Hi Hp IH].
  - intros s t H. cbn [run]. split; [constructor|exact H].
  - destruct i as [a|a|a|a]; cbn [run item_atom] in *.
    + now apply one_same.
    + now apply opt_same.
    + now apply star_same.
    + now apply lazy_same.
Qed.

Lemma search_same (p : list item) (s t : jsstring) :
  Forall (fun i => respects ignoreCase (item_atom i)) p ->
  same_letters s t ->
  match search ignoreCase p s, search ignoreCase p t with
  | None, None => True
  | Some g, Some g' => same_letters g g'
  | _, _ => False
  end.
Proof.
  intros Hp H. induction H as [|x y s t Hxy H IH]; cbn [search].
  - pose proof (run_same Hp (Forall2_nil _)) as Hr.
    destruct (run ignoreCase p []) as [[g r]|]; [|exact I].
    now destruct Hr.
  - assert (Hr : same_result (run ignoreCase p (x :: s)) (run ignoreCase p (y :: t)))
      by (apply (run_same Hp); now constructor).
    destruct (run ignoreCase p (x :: s)) as [[g r]|],
      (run ignoreCase p (y :: t)) as [[g' r']|]; try contradiction.
    + now destruct Hr.
    + exact IH.
Qed.

Lemma replace_from_same (p : list item) (by_ : jsstring) (s t : jsstring) :
  Forall (fun i => respects ignoreCase (item_atom i)) p ->
  same_letters s t ->
  forall skip,
    same_letters (replace_from ignoreCase p by_ skip s)
                 (replace_from ignoreCase p by_ skip t).
Proof.
  intros Hp H. induction H as [|x y s t Hxy H IH]; intros skip;
    cbn [replace_from].
  - destruct skip; [|constructor].
    destruct (run ignoreCase p []); [apply same_letters_refl|constructor].
  - destruct skip as [|n]; [|apply IH].
    assert (Hr : same_result (run ignoreCase p (x :: s)) (run ignoreCase p (y :: t)))
      by (apply (run_same Hp); now constructor).
    destruct (run ignoreCase p (x :: s)) as [[g r]|],
      (run ignoreCase p (y :: t)) as [[g' r']|]; try contradiction.
    + destruct Hr as [_ Hr].
      rewrite (Forall2_length Hr).
      assert (L : length (x :: s) = length (y :: t))
        by (cbn [length]; now rewrite (Forall2_length H)).
      rewrite L.
      destruct (length (y :: t) - length r')%nat.
      * apply Forall2_app; [apply same_letters_refl|].
        constructor; [exact Hxy|apply IH].
      * apply Forall2_app; [apply same_letters_refl|apply IH].
    + constructor; [exact Hxy|apply IH].
Qed.
End SameLetters.

Lemma same_letters_flatten (s t : jsstring) :
  same_letters s t -> same_letters (flatten s) (flatten t).
Proof.
  intros H. unfold flatten, replace.
  apply replace_from_same.
  - repeat constructor; apply respects_ws.
  - apply replace_from_same; [|exact H].
    repeat constructor; apply respects_control; reflexivity.
Qed.

Lemma respects_pattern (label after : list atom) :
  Forall (respects true) label -> Forall (respects true) after ->
  Forall (fun i => respects true (item_atom i)) (pattern label after).
Proof.
  intros Hl Ha. unfold pattern.
  apply Forall_app. split; [|apply Forall_app; split].
  - apply Forall_map. exact Hl.
  - repeat constructor; cbn [item_atom];
      [apply respects_ws|apply respects_dot|apply respects_ws].
  - apply Forall_map. exact Ha.
Qed.

Lemma same_value_extract (label after : list atom) (s t : jsstring) :
  Forall (respects true) label -> Forall (respects true) after ->
  same_letters s t ->
  same_value (extract s label after) (extract t label after).
Proof.
  intros Hl Ha H. unfold extract.
  pose proof (search_same (respects_pattern Hl Ha) H) as Hs.
  destruct (search true (pattern label after) s),
    (search true (pattern label after) t); try contradiction.
  - cbn [same_value]. now apply same_letters_trim.
  - exact I.
Qed.

Lemma respects_lit (s : string) : Forall (respects true) (lit s).
Proof.
  unfold lit. apply Forall_map. apply Forall_forall.
  intros c _. apply respects_Chr.
Qed.

Lemma respects_masked_account : Forall (respects true) masked_account.
Proof.
  unfold masked_account. repeat (apply Forall_app; split);
    try apply respects_lit.
  repeat constructor; apply respects_digit.
Qed.

Lemma same_letters_truthy (s t : jsstring) :
  same_letters s t -> truthy s = truthy t.
Proof. now destruct 1. Qed.

Lemma same_value_or_else (v v' : value) (d : jsstring) :
  same_value v v' -> same_value (or_else v d) (or_else v' d).
Proof.
  destruct v as [|s], v' as [|s']; cbn [same_value or_else]; try contradiction.
  - intros _. apply same_letters_refl.
  - intros H. rewrite (same_letters_truthy H).
    destruct (truthy s'); [exact H|apply same_letters_refl].
Qed.

Lemma same_data_cbe (s t : jsstring) :
  same_letters s t -> same_data (cbe_data s) (cbe_data t).
Proof.
  intros H. cbv beta zeta delta [cbe_data]. unfold same_data.
  repeat (apply Forall2_cons; [split; [reflexivity|cbn [snd]]|]);
    try apply Forall2_nil;
    try (apply same_value_or_else);
    try (apply same_value_extract;
         [first [apply respects_lit|apply respects_masked_account]
         |apply respects_lit|exact H]).
  pose proof (@same_value_extract total_label (lit "Amount in Word") s t
                (respects_lit _) (respects_lit _) H) as Hv.
  destruct (extract s total_label (lit "Amount in Word")) as [|a],
    (extract t total_label (lit "Amount in Word")) as [|b];
    cbn [same_value] in *; try contradiction.
  - apply same_letters_refl.
  - rewrite (same_letters_truthy Hv).
    destruct (truthy b); [|apply same_letters_refl].
    apply Forall2_app; [exact Hv|apply same_letters_refl].
Qed.

(** X12: the case of the ASCII letters of a receipt does not matter to the
    extraction: two decoded texts that differ in the case of letters only
    give the same keys, [null] in the same fields, and values that differ
    in the case of letters only. *)
Theorem letter_case_is_ignored (s t : jsstring) :
  same_letters s t ->
  same_data (cbe_data (flatten s)) (cbe_data (flatten t)).
Proof.
  intros H. now apply same_data_cbe, same_letters_flatten.
Qed.

Lemma letter_case_is_ignored_witness :
  same_data (cbe_data (flatten (js "Payer Abebe Account 1")))
            (cbe_data (flatten (js "PAYER ABEBE ACCOUNT 1"))).
Proof.
  apply letter_case_is_ignored.
  vm_compute. repeat constructor.
Defined.

(** ** What makes a lookup fail *)

Section FailureCauses.
Variable Buffer : Type.
Variable axios_get_arraybuffer : jsstring -> outcome Buffer.
Variable pdfParse : Buffer -> outcome jsstring.
Variable axios_get : jsstring -> outcome jsvalue.
Variable type_error : jsvalue -> jsstring.
Variable cheerio_load : jsvalue -> outcome Cheerio.document.

Let resolve := resolve axios_get_arraybuffer pdfParse axios_get type_error cheerio_load.

(** X13: a lookup fails for no other reason than these: the fetch threw,
    the PDF could not be decoded, the response is neither a string nor an
    array (the call of [includes] throws a [TypeError]), the page holds the
    sentinel phrase (or the array holds it as an element), or the page could
    not be parsed; the message is that of the step that threw.  What a
    document lacks never makes the lookup fail. *)
Theorem lookup_fails_only_on (id message : jsstring) :
  resolve id = Throw message ->
  (startsWith id (js "FT") = true
   /\ (axios_get_arraybuffer (cbe_link id) = Throw message
       \/ exists buffer,
           axios_get_arraybuffer (cbe_link id) = Ok buffer
           /\ pdfParse buffer = Throw message))
  \/ (startsWith id (js "FT") = false
      /\ (axios_get (telebirr_link id) = Throw message
          \/ exists html,
              axios_get (telebirr_link id) = Ok html
              /\ ((has_includes html = false /\ message = type_error html)
                  \/ ((exists page,
                          html = VString page /\ includes page sentinel = true)
                      /\ message = js "Invalid Telebirr transaction ID")
                  \/ ((exists elements,
                          html = VArray elements
                          /\ existsb (is_the_string sentinel) elements = true)
                      /\ message = js "Invalid Telebirr transaction ID")
                  \/ (has_includes html = true
                      /\ includes_sentinel type_error html = Ok false
                      /\ cheerio_load html = Throw message)))).
Proof.
  unfold resolve, Server.resolve, parseFT, parseTelebirr, bind.
  destruct (startsWith id (js "FT")); intros H; [left|right];
    (split; [reflexivity|]).
  - destruct (axios_get_arraybuffer (cbe_link id)) as [buffer|m] eqn:E1.
    + right. exists buffer. split; [reflexivity|].
      destruct (pdfParse buffer) as [text|m] eqn:E2; [discriminate H|].
      now inversion H.
    + left. now inversion H.
  - destruct (axios_get (telebirr_link id)) as [html|m] eqn:E1.
    + right. exists html. split; [reflexivity|].
      assert (Hs : forall found,
                 includes_sentinel type_error html = Ok found ->
                 has_includes html = true ->
                 (found = true -> message = js "Invalid Telebirr transaction ID")
                 /\ (found = false ->
                     includes_sentinel type_error html = Ok false
                     /\ cheerio_load html = Throw message)).
      { intros found Ef _. rewrite Ef in H. destruct found.
        - split; [intros _; now inversion H|discriminate].
        - split; [discriminate|]. intros _. split; [exact Ef|].
          destruct (cheerio_load html) as [d|m] eqn:E3; [discriminate H|].
          now inversion H. }
      destruct html as [|b|literal|page|elements|members];
        try (left; split; [reflexivity|]; cbn [includes_sentinel] in H;
             now inversion H).
      * destruct (includes page sentinel) eqn:Ei.
        -- right; left. split; [now exists page|].
           apply (proj1 (Hs true ltac:(cbn [includes_sentinel]; now rewrite Ei)
                            eq_refl)).
           reflexivity.
        -- right; right; right. split; [reflexivity|].
           apply (proj2 (Hs false ltac:(cbn [includes_sentinel]; now rewrite Ei)
                            eq_refl)).
           reflexivity.
      * destruct (existsb (is_the_string sentinel) elements) eqn:Ei.
        -- right; right; left. split; [now exists elements|].
           apply (proj1 (Hs true ltac:(cbn [includes_sentinel]; now rewrite Ei)
                            eq_refl)).
           reflexivity.
        -- right; right; right. split; [reflexivity|].
           apply (proj2 (Hs false ltac:(cbn [includes_sentinel]; now rewrite Ei)
                            eq_refl)).
           reflexivity.
    + left. now inversion H.
Qed.
End FailureCauses.

Lemma lookup_fails_only_on_witness :
  (startsWith (js "CE1") (js "FT") = true
   /\ (Samples.serve_pdf (cbe_link (js "CE1"))
         = Throw (Samples.engine_message (VNumber (js "123")))
       \/ exists buffer,
           Samples.serve_pdf (cbe_link (js "CE1")) = Ok buffer
           /\ Samples.read_pdf buffer
                = Throw (Samples.engine_message (VNumber (js "123")))))
  \/ (startsWith (js "CE1") (js "FT") = false
      /\ (Samples.serve_number (telebirr_link (js "CE1"))
            = Throw (Samples.engine_message (VNumber (js "123")))
          \/ exists html,
              Samples.serve_number (telebirr_link (js "CE1")) = Ok html
              /\ ((has_includes html = false
                   /\ Samples.engine_message (VNumber (js "123"))
                      = Samples.engine_message html)
                  \/ ((exists page,
                          html = VString page /\ includes page sentinel = true)
                      /\ Samples.engine_message (VNumber (js "123"))
                         = js "Invalid Telebirr transaction ID")
                  \/ ((exists elements,
                          html = VArray elements
                          /\ existsb (is_the_string sentinel) elements = true)
                      /\ Samples.engine_message (VNumber (js "123"))
                         = js "Invalid Telebirr transaction ID")
                  \/ (has_includes html = true
                      /\ includes_sentinel Samples.engine_message html = Ok false
                      /\ Samples.load_page html
                         = Throw (Samples.engine_message (VNumber (js "123"))))))).
Proof.
  apply (@lookup_fails_only_on jsstring Samples.serve_pdf Samples.read_pdf
           Samples.serve_number Samples.engine_message Samples.load_page
           (js "CE1") (Samples.engine_message (VNumber (js "123")))).
  reflexivity.
Defined.

(** ** Label and value cells *)

(** X14: on a receipt page (a table body of rows of cells, the only [td]
    elements of the page, with or without text between the rows and the
    cells), a field read by its label is the trimmed text of the cells that
    stand right after the cells with the label, in the order of the page:
    the text between the cells is passed over, and a cell with the label
    that is the last of its row adds nothing. *)
Theorem cell_after_reads_value_cells
        (ctx : list frame) (b : table_body) (label : jsstring) :
  plain ctx b = true ->
  cell_after (table_page ctx b) label = trim (labelled_value label b).
Proof. apply cell_after_page. Qed.

Lemma cell_after_reads_value_cells_witness :
  cell_after Samples.receipt_page payer_name_label = js "Abebe".
Proof.
  unfold Samples.receipt_page.
  rewrite (@cell_after_reads_value_cells Samples.receipt_context
             Samples.receipt_rows payer_name_label).
  - vm_compute. reflexivity.
  - vm_compute. reflexivity.
Defined.

(** X15: so, when one cell only has the label, the field is the trimmed
    text of the cell right after it, wherever the row stands in the table
    and the cell in its row. *)
Theorem cell_after_is_order_independent
        (ctx : list frame) (b : table_body) (label : jsstring)
        (above below : list (list cell)) (left others : list cell) (c v : cell) :
  plain ctx b = true ->
  grid b = above ++ (left ++ c :: v :: others) :: below ->
  includes (cell_label c) label = true ->
  unlabelled label (above ++ left :: (v :: others) :: below) = true ->
  cell_after (table_page ctx b) label = trim (cell_text v).
Proof.
  intros Hp Hg Hc Hu. rewrite (@cell_after_page ctx b label Hp).
  now rewrite (@labelled_value_one label b above below left others c v Hg Hc Hu).
Qed.

Lemma cell_after_is_order_independent_witness :
  cell_after
    (table_page Samples.receipt_context
       [ Samples.tr [Samples.td [] "ጠቅላላ የተከፈለ/Total Paid Amount";
                     Samples.td [] "100 Birr"];
         Gap (js " ");
         Samples.tr [Samples.td [] "No.";
                     Samples.td [] "የከፋይ ስም/Payer Name"; Gap (js " ");
                     Samples.td [] " Abebe "; Samples.td [] "x"];
         Samples.tr [Samples.td [] "የክፍያ ምክንያት/Payment Reason";
                     Samples.td [] "Transfer"] ])
    payer_name_label
  = js "Abebe".
Proof.
  rewrite (@cell_after_is_order_independent
             Samples.receipt_context _ payer_name_label
             [ [Samples.cell_of [] "ጠቅላላ የተከፈለ/Total Paid Amount";
                Samples.cell_of [] "100 Birr"] ]
             [ [Samples.cell_of [] "የክፍያ ምክንያት/Payment Reason";
                Samples.cell_of [] "Transfer"] ]
             [Samples.cell_of [] "No."] [Samples.cell_of [] "x"]
             (Samples.cell_of [] "የከፋይ ስም/Payer Name")
             (Samples.cell_of [] " Abebe ")).
  - vm_compute. reflexivity.
  - vm_compute. reflexivity.
  - reflexivity.
  - vm_compute. reflexivity.
  - vm_compute. reflexivity.
Defined.

(** ** The receipt number and the payment date *)

(** X16: on a receipt page, [receiptNumber] is the trimmed text of the
    first cell of the row below the first cell of class [receipttableTd2]
    of the page, and [paymentDate] that of the second cell of that row,
    provided the marked cell has a cell after it in its row; both are empty
    when the page has no marked cell, and [paymentDate] is empty when the
    marked cell is the last of its row. *)
Theorem receipt_number_and_date (ctx : list frame) (b : table_body) :
  plain ctx b = true ->
  receipt_number (table_page ctx b) = trim (receipt_number_of b)
  /\ payment_date (table_page ctx b) = trim (payment_date_of b)
  /\ (unmarked (grid b) = true ->
      receipt_number (table_page ctx b) = []
      /\ payment_date (table_page ctx b) = [])
  /\ (forall above below left values m number,
      grid b = above ++ (left ++ [m]) :: (number :: values) :: below ->
      unmarked above = true ->
      forallb (fun c => negb (is_marked c)) left = true ->
      is_marked m = true ->
      receipt_number (table_page ctx b) = trim (cell_text number)
      /\ payment_date (table_page ctx b) = [])
  /\ (forall above below left headers values m h number date,
      grid b = above ++ (left ++ m :: h :: headers)
                     :: (number :: date :: values) :: below ->
      unmarked above = true ->
      forallb (fun c => negb (is_marked c)) left = true ->
      is_marked m = true ->
      receipt_number (table_page ctx b) = trim (cell_text number)
      /\ payment_date (table_page ctx b) = trim (cell_text date)).
Proof.
  intros Hp. destruct (@marked_cells_page ctx b Hp) as [En Ed].
  rewrite En, Ed.
  split; [reflexivity|]. split; [reflexivity|]. split; [|split].
  - intros Hu. destruct (@marked_values_none b Hu) as [-> ->]. now split.
  - intros above below left values m number Hg Ha Hl Hm.
    unfold receipt_number_of, payment_date_of.
    rewrite Hg, (@below_first_marked _ _ _ _ _ Ha Hl Hm). now split.
  - intros above below left headers values m h number date Hg Ha Hl Hm.
    destruct (@marked_values_one b _ _ _ _ _ _ _ _ _ Hg Ha Hl Hm) as [-> ->].
    now split.
Qed.

Lemma receipt_number_and_date_witness :
  receipt_number Samples.receipt_page = js "CE123"
  /\ payment_date Samples.receipt_page = js "16-05-2025".
Proof.
  unfold Samples.receipt_page.
  destruct (@receipt_number_and_date Samples.receipt_context Samples.receipt_rows)
    as (En & Ed & _).
  - vm_compute. reflexivity.
  - rewrite En, Ed. vm_compute. split; reflexivity.
Defined.
